(** * lowbass' TV Tracker: episode/season synchronisation engine

    A shallow embedding of the episode bookkeeping of [src/App.tsx]
    (merge of fetched episodes with stored watch flags, season
    aggregation, next-episode resolution, the watched-setting
    operations on the watchlist and the daily refresh) and of the
    backend refresh job of [backend/src/services/showService.ts],
    followed by the properties proved about them.

    Conventions of the embedding:
    - a JavaScript [number] holding an identifier, a season, an episode
      number or a count is a [Z];
    - an optional field ([x?: T], or a value that may be [undefined] or
      [null]) is an [option];
    - [new Date(s)] is the class method [Date_parse], [None] standing
      for an Invalid Date (its time value is NaN, and every comparison
      with NaN is false); [new Date()] is the explicit argument [now]
      (milliseconds since the epoch), one reading per operation;
    - an [async] function that may throw returns a [Completion];
    - the React state [watchlist] is passed in and the new state is
      returned; an operation runs to its end before the next starts. *)

From Stdlib Require Import ZArith List String Ascii Bool Lia.
From Stdlib Require Import Permutation Sorted.
Import ListNotations.

Local Open Scope Z_scope.

(** ** JavaScript helpers *)

Module Js.

(** [s || undefined] on an optional string: the empty string is falsy. *)
Definition or_undefined (s : option string) : option string :=
  match s with
  | Some EmptyString => None
  | Some x => Some x
  | None => None
  end.

(** [n || null] on an optional number: [0] is falsy. *)
Definition num_or_null (n : option Z) : option Z :=
  match n with
  | Some 0 => None
  | Some x => Some x
  | None => None
  end.

(** [Array.prototype.sort] with a comparator: a stable sort (ES2019);
    [x] is placed before the first element it does not compare above. *)
Fixpoint sort_insert {A : Type} (cmp : A -> A -> Z) (x : A) (l : list A)
  : list A :=
  match l with
  | [] => [x]
  | y :: l' =>
      if cmp x y <=? 0 then x :: y :: l' else y :: sort_insert cmp x l'
  end.

Fixpoint sort {A : Type} (cmp : A -> A -> Z) (l : list A) : list A :=
  match l with
  | [] => []
  | x :: l' => sort_insert cmp x (sort cmp l')
  end.

(** [str.replace(/<[^>]*>/g, '')]: every [<], up to the first [>]
    after it, is removed; a [<] with no [>] after it stays. *)
Fixpoint has_gt (s : string) : bool :=
  match s with
  | EmptyString => false
  | String c s' => if Ascii.eqb c ">" then true else has_gt s'
  end.

Fixpoint strip_tags_aux (inside : bool) (s : string) : string :=
  match s with
  | EmptyString => EmptyString
  | String c s' =>
      if inside then
        if Ascii.eqb c ">" then strip_tags_aux false s'
        else strip_tags_aux true s'
      else if Ascii.eqb c "<" && has_gt s' then strip_tags_aux true s'
      else String c (strip_tags_aux false s')
  end.

Definition strip_tags (s : string) : string := strip_tags_aux false s.

(** A [Map<number, V>]: entries in insertion order, one per key. *)
Module Map.
Section Ops.
Context {V : Type}.

Definition t := list (Z * V).

Fixpoint get (m : t) (k : Z) : option V :=
  match m with
  | [] => None
  | (k', v) :: m' => if k' =? k then Some v else get m' k
  end.

Definition has (m : t) (k : Z) : bool :=
  match get m k with Some _ => true | None => false end.

(** [set] on a present key replaces the value where it stands; on
    an absent key it appends the entry. *)
Fixpoint set (m : t) (k : Z) (v : V) : t :=
  match m with
  | [] => [(k, v)]
  | (k', v') :: m' =>
      if k' =? k then (k', v) :: m' else (k', v') :: set m' k v
  end.

Definition entries (m : t) : list (Z * V) := m.
End Ops.
Arguments t : clear implicits.
End Map.

End Js.

(** Outcome of an [await]ed computation: a value, or a thrown error. *)
Inductive Completion (A : Type) : Type :=
| Return (a : A)
| Throw (err : string).
Arguments Return {A} a.
Arguments Throw {A} err.

Definition bind {A B : Type} (c : Completion A) (k : A -> Completion B)
  : Completion B :=
  match c with
  | Return a => k a
  | Throw e => Throw e
  end.

(** [try { body } catch (err) { handler }] *)
Definition try_catch {A : Type} (body : Completion A)
  (handler : string -> Completion A) : Completion A :=
  match body with
  | Return a => Return a
  | Throw e => handler e
  end.

Notation "x <- c ;; k" := (bind c (fun x => k))
  (at level 61, c at next level, right associativity).

(** The [Date] facilities the code relies on. *)
Class JsDate : Type := {
  (** time value of [new Date(s)]; [None] for an Invalid Date *)
  Date_parse : string -> option Z;
  (** [new Date(t).toISOString()] *)
  toISOString : Z -> string
}.

(** ** Data model ([src/App.tsx], lines 11-71) *)

Module Episode.
Record t : Type := mk {
  id : Z;
  season : Z;
  episode : Z;
  title : string;
  airDate : string;
  airTime : option string;
  runtime : option Z;
  summary : option string;
  watched : bool;
  watchedDate : option string
}.

(** [{ ...e, watched: w, watchedDate: d }] *)
Definition with_watch (e : t) (w : bool) (d : option string) : t :=
  mk (id e) (season e) (episode e) (title e) (airDate e) (airTime e)
     (runtime e) (summary e) w d.
End Episode.

Module Season.
Record t : Type := mk {
  number : Z;
  episodes : list Episode.t;
  totalEpisodes : Z;
  watchedEpisodes : Z
}.
End Season.

Module NextEpisode.
Record t : Type := mk {
  season : option Z;
  episode : option Z;
  title : option string;
  airDate : option string;
  airTime : option string;
  runtime : option Z;
  hasNext : option bool
}.
End NextEpisode.

(** The descriptive fields of a show, which no operation below reads
    or writes. *)
Record ShowInfo : Type := {
  info_title : string;
  info_type : string;
  info_year : string;
  info_platform : string;
  info_genres : list string;
  info_status : string;
  info_poster : string;
  info_rating : string;
  info_summary : string;
  info_language : string;
  info_runtime : Z;
  info_premiered : string;
  info_officialSite : string;
  info_tvmazeUrl : string;
  info_lastWatchedEpisode : option NextEpisode.t
}.

Module Show.
Record t : Type := mk {
  id : string;
  info : ShowInfo;
  tvmazeId : Z;
  nextEpisode : option NextEpisode.t;
  addedDate : option string;
  watched : option bool;
  watchedEpisodes : option (list string);
  watchedDate : option string;
  seasons : list Season.t;
  episodes : list Episode.t;
  totalEpisodes : Z;
  watchedEpisodesCount : Z;
  lastUpdated : option string;
  expandedSeasons : option (list Z)
}.
End Show.

Definition Watchlist : Type := list Show.t.

(** The identifiers of the tracked shows, in the order of the list. *)
Definition ids (wl : Watchlist) : list string := map Show.id wl.

(** ** The episode source ([fetchEpisodeList], lines 348-373) *)

(** One element of the array answered by [/shows/:id/episodes]. *)
Record RawEpisode : Type := {
  raw_id : Z;
  raw_season : Z;
  raw_number : Z;
  raw_name : string;
  raw_airdate : string;
  raw_airtime : option string;
  raw_runtime : option Z;
  raw_summary : option string
}.

Inductive JsonBody : Type :=
| BadJson
| NotAnArray
| EpisodeArray (eps : list RawEpisode).

(** What [fetch(url)] does: it rejects (no connection), or resolves to a
    response with a status and a body. *)
Inductive FetchOutcome : Type :=
| NetworkError
| Response (status : Z) (body : JsonBody).

(** The external catalogue: the outcome of the episodes request for
    each TVmaze identifier. *)
Definition Source : Type := Z -> FetchOutcome.

Definition fetch (o : FetchOutcome) : Completion (Z * JsonBody) :=
  match o with
  | NetworkError => Throw "TypeError: Failed to fetch"
  | Response status body => Return (status, body)
  end.

Definition response_ok (status : Z) : bool :=
  (200 <=? status) && (status <=? 299).

(** [await response.json()] followed by the first use of the value as an
    array ([episodes.map]): a body that is not JSON, or not an array,
    throws. *)
Definition json_array (body : JsonBody) : Completion (list RawEpisode) :=
  match body with
  | BadJson => Throw "SyntaxError: Unexpected token"
  | NotAnArray => Throw "TypeError: episodes.map is not a function"
  | EpisodeArray eps => Return eps
  end.

Definition episode_of_raw (ep : RawEpisode) : Episode.t :=
  Episode.mk (raw_id ep) (raw_season ep) (raw_number ep) (raw_name ep)
    (raw_airdate ep) (raw_airtime ep) (raw_runtime ep)
    (match Js.or_undefined (raw_summary ep) with
     | Some s => Some (Js.strip_tags s)
     | None => Some EmptyString
     end)
    false None.

Definition fetchEpisodeList (o : FetchOutcome)
  : Completion (list Episode.t) :=
  try_catch
    (response <- fetch o ;;
     episodes <- json_array (snd response) ;;
     Return (map episode_of_raw episodes))
    (fun _ => Return []).

(** ** Season aggregation ([organizeEpisodesIntoSeasons], lines 376-400) *)

(** Body of the [forEach]: create the bucket when the season is new,
    then push the episode on it. *)
Definition seasonMap_add (seasonMap : Js.Map.t (list Episode.t))
  (episode : Episode.t) : Js.Map.t (list Episode.t) :=
  let seasonNumber := Episode.season episode in
  let seasonMap1 :=
    if negb (Js.Map.has seasonMap seasonNumber)
    then Js.Map.set seasonMap seasonNumber []
    else seasonMap in
  match Js.Map.get seasonMap1 seasonNumber with
  | Some bucket => Js.Map.set seasonMap1 seasonNumber (bucket ++ [episode])
  | None => seasonMap1
  end.

Definition count_watched (episodes : list Episode.t) : Z :=
  Z.of_nat (List.length (filter Episode.watched episodes)).

Definition season_of_entry (entry : Z * list Episode.t) : Season.t :=
  let '(seasonNumber, seasonEpisodes) := entry in
  Season.mk seasonNumber
    (Js.sort (fun a b => Episode.episode a - Episode.episode b)
       seasonEpisodes)
    (Z.of_nat (List.length seasonEpisodes))
    (count_watched seasonEpisodes).

Definition organizeEpisodesIntoSeasons (episodes : list Episode.t)
  : list Season.t :=
  let seasonMap := fold_left seasonMap_add episodes [] in
  map season_of_entry
    (Js.sort (fun a b => fst a - fst b) (Js.Map.entries seasonMap)).

(** ** The show state ([src/App.tsx]) *)

Section Engine.
Context `{D : JsDate}.

(** [new Date(airDate) <= now] *)
Definition hasAired (now : Z) (airDate : string) : bool :=
  match Date_parse airDate with
  | Some t => t <=? now
  | None => false
  end.

(** Line 410: the stored episode looked up by the identifier of the
    fresh one. *)
Definition existingEp (existing : list Episode.t) (freshEp : Episode.t)
  : option Episode.t :=
  find (fun ep => Episode.id ep =? Episode.id freshEp) existing.

(** Lines 409-416: the fresh episode, with the watch state of the stored
    episode found for its identifier. *)
Definition mergeEpisode (existing : list Episode.t) (freshEp : Episode.t)
  : Episode.t :=
  Episode.with_watch freshEp
    (match existingEp existing freshEp with
     | Some ep => Episode.watched ep || false
     | None => false
     end)
    (match existingEp existing freshEp with
     | Some ep => Js.or_undefined (Episode.watchedDate ep)
     | None => None
     end).

Definition mergeEpisodes (existing freshEpisodes : list Episode.t)
  : list Episode.t :=
  map (mergeEpisode existing) freshEpisodes.

(** Lines 420-434 (and 539-548, 754-763, 831-840): the next episode. *)
Definition nextUnwatched (now : Z) (episodes : list Episode.t)
  : option Episode.t :=
  find (fun ep =>
          negb (Episode.watched ep) && hasAired now (Episode.airDate ep))
       episodes.

Definition nextEpisode_snapshot (ep : Episode.t) : NextEpisode.t :=
  NextEpisode.mk (Some (Episode.season ep)) (Some (Episode.episode ep))
    (Some (Episode.title ep)) (Some (Episode.airDate ep))
    (Episode.airTime ep) (Episode.runtime ep) (Some true).

Definition resolveNextEpisode (now : Z) (episodes : list Episode.t)
  : option NextEpisode.t :=
  match nextUnwatched now episodes with
  | Some ep => Some (nextEpisode_snapshot ep)
  | None => None
  end.

(** [watchedCount === totalEpisodes && totalEpisodes > 0] *)
Definition all_watched (watchedCount total : Z) : bool :=
  (watchedCount =? total) && (total >? 0).

(** Lines 408-447: [updateShowWithEpisodes] once the fetch has answered
    [freshEpisodes]. *)
Definition refreshShow (now : Z) (freshEpisodes : list Episode.t)
  (show : Show.t) : Show.t :=
  let episodes := mergeEpisodes (Show.episodes show) freshEpisodes in
  let seasons := organizeEpisodesIntoSeasons episodes in
  let nextEpisode := resolveNextEpisode now episodes in
  let watchedCount := count_watched episodes in
  let total := Z.of_nat (List.length episodes) in
  Show.mk (Show.id show) (Show.info show) (Show.tvmazeId show)
    nextEpisode (Show.addedDate show)
    (Some (all_watched watchedCount total))
    (Show.watchedEpisodes show) (Show.watchedDate show)
    seasons episodes total watchedCount
    (Some (toISOString now)) (Show.expandedSeasons show).

Definition updateShowWithEpisodes (now : Z) (source : Source)
  (show : Show.t) : Completion Show.t :=
  freshEpisodes <- fetchEpisodeList (source (Show.tvmazeId show)) ;;
  Return (refreshShow now freshEpisodes show).

(** [prevWatchlist.map(w => w.id === id ? updated : w)] *)
Definition replaceShow (id : string) (updated : Show.t)
  (watchlist : Watchlist) : Watchlist :=
  map (fun w => if (Show.id w =? id)%string then updated else w) watchlist.

Definition findShow (id : string) (watchlist : Watchlist)
  : option Show.t :=
  find (fun w => (Show.id w =? id)%string) watchlist.

(** *** [addToWatchlist], lines 451-503 *)

Definition newItem (now : Z) (item : Show.t) : Show.t :=
  Show.mk (Show.id item) (Show.info item) (Show.tvmazeId item)
    (Show.nextEpisode item) (Some (toISOString now)) (Some false)
    (Some []) (Show.watchedDate item) [] [] 0 0
    (Some (toISOString now)) (Some []).

(** The state set at once, before the episodes are fetched. *)
Definition addToWatchlist_pending (now : Z) (watchlist : Watchlist)
  (item : Show.t) : Watchlist :=
  match findShow (Show.id item) watchlist with
  | Some _ => watchlist
  | None => watchlist ++ [newItem now item]
  end.

(** The state update made when the background fetch has answered, at
    time [now'], for the item added at time [now]. *)
Definition addToWatchlist_loaded (now now' : Z) (source : Source)
  (prevWatchlist : Watchlist) (item : Show.t) : Watchlist :=
  match updateShowWithEpisodes now' source (newItem now item) with
  | Return updatedItem => replaceShow (Show.id item) updatedItem prevWatchlist
  | Throw _ => prevWatchlist
  end.

Definition addToWatchlist (now now' : Z) (source : Source)
  (watchlist : Watchlist) (item : Show.t) : Watchlist :=
  match findShow (Show.id item) watchlist with
  | Some _ => watchlist
  | None =>
      addToWatchlist_loaded now now' source
        (watchlist ++ [newItem now item]) item
  end.

(** *** [removeFromWatchlist], lines 592-605 *)

Definition removeFromWatchlist (watchlist : Watchlist) (itemId : string)
  : Watchlist :=
  filter (fun item => negb (Show.id item =? itemId)%string) watchlist.

(** *** The three watched-setting operations

    Each builds [updatedShow] from the show found in the watchlist and
    puts it in the place of every show with that identifier.  They
    spread [currentShow] and overwrite [episodes], [seasons],
    [watchedEpisodesCount], [watched], [nextEpisode] and [lastUpdated];
    [totalEpisodes] is not among the overwritten fields. *)

Definition withEpisodes (now : Z) (currentShow : Show.t)
  (updatedEpisodes : list Episode.t) (watchedDate : option string)
  : Show.t :=
  let updatedSeasons := organizeEpisodesIntoSeasons updatedEpisodes in
  let watchedCount := count_watched updatedEpisodes in
  let totalEpisodes := Z.of_nat (List.length updatedEpisodes) in
  let nextEpisode := resolveNextEpisode now updatedEpisodes in
  Show.mk (Show.id currentShow) (Show.info currentShow)
    (Show.tvmazeId currentShow) nextEpisode (Show.addedDate currentShow)
    (Some (all_watched watchedCount totalEpisodes))
    (Show.watchedEpisodes currentShow) watchedDate
    updatedSeasons updatedEpisodes (Show.totalEpisodes currentShow)
    watchedCount (Some (toISOString now))
    (Show.expandedSeasons currentShow).

(** Lines 519-529 *)
Definition markSeries_episodes (now : Z) (watched : bool)
  (episodes : list Episode.t) : list Episode.t :=
  map (fun episode =>
         let hasAired := hasAired now (Episode.airDate episode) in
         let shouldMarkWatched := if watched then hasAired else false in
         Episode.with_watch episode shouldMarkWatched
           (if shouldMarkWatched then Some (toISOString now) else None))
      episodes.

(** [markSeriesWatched], lines 506-577 *)
Definition markSeriesWatched (now : Z) (watchlist : Watchlist)
  (showId : string) (watched : bool) : Watchlist :=
  match findShow showId watchlist with
  | None => watchlist
  | Some currentShow =>
      let updatedEpisodes :=
        markSeries_episodes now watched (Show.episodes currentShow) in
      let updatedShow :=
        withEpisodes now currentShow updatedEpisodes
          (if watched then Some (toISOString now) else None) in
      replaceShow showId updatedShow watchlist
  end.

(** [markAsWatched], lines 580-587 *)
Definition markAsWatched (now : Z) (watchlist : Watchlist)
  (itemId : string) : Watchlist :=
  markSeriesWatched now watchlist itemId true.

(** Lines 735-744 *)
Definition toggle_episodes (now : Z) (episodeId : Z)
  (episodes : list Episode.t) : list Episode.t :=
  map (fun episode =>
         if Episode.id episode =? episodeId then
           Episode.with_watch episode (negb (Episode.watched episode))
             (if negb (Episode.watched episode)
              then Some (toISOString now) else None)
         else episode)
      episodes.

(** [toggleEpisodeWatched], lines 724-792 *)
Definition toggleEpisodeWatched (now : Z) (watchlist : Watchlist)
  (showId : string) (episodeId : Z) : Watchlist :=
  match findShow showId watchlist with
  | None => watchlist
  | Some currentShow =>
      let updatedEpisodes :=
        toggle_episodes now episodeId (Show.episodes currentShow) in
      let updatedShow :=
        withEpisodes now currentShow updatedEpisodes
          (Show.watchedDate currentShow) in
      replaceShow showId updatedShow watchlist
  end.

(** Lines 808-821 *)
Definition markSeason_episodes (now : Z) (seasonNumber : Z)
  (watched : bool) (episodes : list Episode.t) : list Episode.t :=
  map (fun episode =>
         if Episode.season episode =? seasonNumber then
           let hasAired := hasAired now (Episode.airDate episode) in
           let shouldMarkWatched := if watched then hasAired else false in
           Episode.with_watch episode shouldMarkWatched
             (if shouldMarkWatched then Some (toISOString now) else None)
         else episode)
      episodes.

(** [markSeasonWatched], lines 795-868 *)
Definition markSeasonWatched (now : Z) (watchlist : Watchlist)
  (showId : string) (seasonNumber : Z) (watched : bool) : Watchlist :=
  match findShow showId watchlist with
  | None => watchlist
  | Some currentShow =>
      let updatedEpisodes :=
        markSeason_episodes now seasonNumber watched
          (Show.episodes currentShow) in
      let updatedShow :=
        withEpisodes now currentShow updatedEpisodes
          (Show.watchedDate currentShow) in
      replaceShow showId updatedShow watchlist
  end.

(** [toggleSeasonExpansion], lines 702-721 *)
Definition toggleExpanded (seasonNumber : Z) (show : Show.t) : Show.t :=
  let currentExpanded :=
    match Show.expandedSeasons show with Some l => l | None => [] end in
  let isExpanded := existsb (fun s => s =? seasonNumber) currentExpanded in
  Show.mk (Show.id show) (Show.info show) (Show.tvmazeId show)
    (Show.nextEpisode show) (Show.addedDate show) (Show.watched show)
    (Show.watchedEpisodes show) (Show.watchedDate show)
    (Show.seasons show) (Show.episodes show) (Show.totalEpisodes show)
    (Show.watchedEpisodesCount show) (Show.lastUpdated show)
    (Some (if isExpanded
           then filter (fun s => negb (s =? seasonNumber)) currentExpanded
           else currentExpanded ++ [seasonNumber])).

Definition toggleSeasonExpansion (watchlist : Watchlist)
  (showId : string) (seasonNumber : Z) : Watchlist :=
  map (fun show =>
         if (Show.id show =? showId)%string
         then toggleExpanded seasonNumber show else show)
      watchlist.

(** *** The daily refresh ([updateShowsDaily], lines 109-172) *)

Definition batchSize : nat := 3.

(** Lines 118-122 *)
Definition needsUpdate (oneDayAgo : Z) (show : Show.t) : bool :=
  match Js.or_undefined (Show.lastUpdated show) with
  | None => true
  | Some lastUpdated =>
      match Date_parse lastUpdated with
      | Some t => t <? oneDayAgo
      | None => false
      end
  end.

(** Lines 135-144: [try { return await updateShowWithEpisodes(show) }
    catch (err) { return show }] *)
Definition refreshOrKeep (now : Z) (source : Source) (show : Show.t)
  : Show.t :=
  match updateShowWithEpisodes now source show with
  | Return updatedShow => updatedShow
  | Throw _ => show
  end.

(** Lines 148-153 *)
Definition applyUpdates (updates : list Show.t) (prevWatchlist : Watchlist)
  : Watchlist :=
  map (fun show =>
         match find (fun u => (Show.id u =? Show.id show)%string) updates
         with
         | Some updatedShow => updatedShow
         | None => show
         end)
      prevWatchlist.

(** The [for (let i = 0; i < showsToUpdate.length; i += batchSize)] loop;
    [fuel] bounds the number of rounds. *)
Fixpoint daily_batches (fuel : nat) (now : Z) (source : Source)
  (showsToUpdate : list Show.t) (i : nat) (watchlist : Watchlist)
  : Watchlist :=
  match fuel with
  | O => watchlist
  | S fuel' =>
      if (i <? List.length showsToUpdate)%nat then
        let batch := firstn batchSize (skipn i showsToUpdate) in
        let updates := map (refreshOrKeep now source) batch in
        daily_batches fuel' now source showsToUpdate (i + batchSize)
          (applyUpdates updates watchlist)
      else watchlist
  end.

Definition updateShowsDaily (now : Z) (source : Source)
  (watchlist : Watchlist) : Watchlist :=
  if (List.length watchlist =? 0)%nat then watchlist
  else
    let oneDayAgo := now - 24 * 60 * 60 * 1000 in
    let showsToUpdate := filter (needsUpdate oneDayAgo) watchlist in
    if (List.length showsToUpdate =? 0)%nat then watchlist
    else
      daily_batches (List.length showsToUpdate) now source showsToUpdate 0
        watchlist.



End Engine.

(** ** The views of the watchlist ([src/App.tsx], lines 607-699) *)

(** The two sort orders of the "latest episodes" panel and of the
    "upcoming episodes" panel, string literal types in the source. *)
Inductive LatestOrder : Type := newest | oldest.
Inductive UpcomingOrder : Type := soonest | latest.

(** An episode in a cross-show panel: [{ ...ep, showTitle, showId }]. *)
Module PanelEpisode.
Record t : Type := mk {
  ep : Episode.t;
  showTitle : string;
  showId : string
}.
End PanelEpisode.

Section Views.
Context `{D : JsDate}.

(** The truth value of the optional flag [show.watched]. *)
Definition isWatched (show : Show.t) : bool :=
  match Show.watched show with
  | Some true => true
  | _ => false
  end.

(** [getFilteredItems], lines 608-619 *)
Definition getFilteredItems (activeTab : string) (watchlist : Watchlist)
  : Watchlist :=
  if (activeTab =? "unwatched")%string then
    filter (fun item => negb (isWatched item)) watchlist
  else if (activeTab =? "watched")%string then
    filter (fun item => isWatched item) watchlist
  else watchlist.

(** [new Date(a).getTime() - new Date(b).getTime()] as [sort] reads it:
    a comparator answer that is NaN counts as [+0]. *)
Definition time_diff (a b : string) : Z :=
  match Date_parse a, Date_parse b with
  | Some ta, Some tb => ta - tb
  | _, _ => 0
  end.

(** [new Date(airDate) > now] *)
Definition isUpcoming (now : Z) (airDate : string) : bool :=
  match Date_parse airDate with
  | Some t => now <? t
  | None => false
  end.

(** The [forEach] of both panels: the episodes that pass [keep], of the
    shows that are not watched, tagged with their show. *)
Definition collectEpisodes (keep : Episode.t -> bool)
  (watchlist : Watchlist) : list PanelEpisode.t :=
  flat_map
    (fun show =>
       if negb (isWatched show) then
         map (fun ep =>
                PanelEpisode.mk ep (info_title (Show.info show))
                  (Show.id show))
           (filter keep (Show.episodes show))
       else [])
    watchlist.

Definition panel_airDate (e : PanelEpisode.t) : string :=
  Episode.airDate (PanelEpisode.ep e).

(** The time value of the air date of a panel entry, [0] standing in
    when the date is not known. *)
Definition panel_time (e : PanelEpisode.t) : Z :=
  match Date_parse (panel_airDate e) with
  | Some t => t
  | None => 0
  end.

(** [getLatestUnwatchedEpisodes], lines 622-651 *)
Definition getLatestUnwatchedEpisodes (now : Z)
  (latestEpisodesSortOrder : LatestOrder) (watchlist : Watchlist)
  : list PanelEpisode.t :=
  let allUnwatchedEpisodes :=
    collectEpisodes
      (fun ep =>
         negb (Episode.watched ep) && hasAired now (Episode.airDate ep))
      watchlist in
  let sortedEpisodes :=
    Js.sort
      (fun a b =>
         match latestEpisodesSortOrder with
         | newest => time_diff (panel_airDate b) (panel_airDate a)
         | oldest => time_diff (panel_airDate a) (panel_airDate b)
         end)
      allUnwatchedEpisodes in
  firstn 10 sortedEpisodes.

(** [getUpcomingUnwatchedEpisodes], lines 654-684 *)
Definition getUpcomingUnwatchedEpisodes (now : Z)
  (upcomingEpisodesSortOrder : UpcomingOrder) (watchlist : Watchlist)
  : list PanelEpisode.t :=
  let allUpcomingEpisodes :=
    collectEpisodes
      (fun ep =>
         negb (Episode.watched ep) && isUpcoming now (Episode.airDate ep))
      watchlist in
  let sortedEpisodes :=
    Js.sort
      (fun a b =>
         match upcomingEpisodesSortOrder with
         | soonest => time_diff (panel_airDate a) (panel_airDate b)
         | latest => time_diff (panel_airDate b) (panel_airDate a)
         end)
      allUpcomingEpisodes in
  firstn 10 sortedEpisodes.

End Views.

(** ** The next episode of the search results ([fetchNextEpisodeInfo],
    lines 304-345) *)

(** The body answered by [/shows/:id?embed=nextepisode]: not JSON; JSON
    without a next episode under [_embedded] (a [null] body, on which
    the lookup throws, included); or JSON with one. *)
Inductive ShowBody : Type :=
| ShowNotJson
| ShowWithoutNext
| ShowWithNext (nextEp : RawEpisode).

Inductive ShowFetchOutcome : Type :=
| ShowNetworkError
| ShowResponse (status : Z) (body : ShowBody).

(** [{ ...show, nextEpisode: next }] *)
Definition with_nextEpisode (show : Show.t) (next : option NextEpisode.t)
  : Show.t :=
  Show.mk (Show.id show) (Show.info show) (Show.tvmazeId show) next
    (Show.addedDate show) (Show.watched show) (Show.watchedEpisodes show)
    (Show.watchedDate show) (Show.seasons show) (Show.episodes show)
    (Show.totalEpisodes show) (Show.watchedEpisodesCount show)
    (Show.lastUpdated show) (Show.expandedSeasons show).

Definition nextEpisode_of_raw (nextEp : RawEpisode) : NextEpisode.t :=
  NextEpisode.mk (Some (raw_season nextEp)) (Some (raw_number nextEp))
    (Some (raw_name nextEp)) (Some (raw_airdate nextEp))
    (raw_airtime nextEp) (raw_runtime nextEp) None.

(** Lines 309-337: one show of the [Promise.all]; every failure is
    caught and answers the show as it was. *)
Definition fetchNextEpisodeFor (o : ShowFetchOutcome) (show : Show.t)
  : Show.t :=
  match o with
  | ShowNetworkError => show
  | ShowResponse _ ShowNotJson => show
  | ShowResponse _ ShowWithoutNext => show
  | ShowResponse _ (ShowWithNext nextEp) =>
      with_nextEpisode show (Some (nextEpisode_of_raw nextEp))
  end.

(** The search results that [setSearchResults] receives. *)
Definition fetchNextEpisodeInfo (catalogue : Z -> ShowFetchOutcome)
  (shows : list Show.t) : list Show.t :=
  map (fun show => fetchNextEpisodeFor (catalogue (Show.tvmazeId show)) show)
    shows.

(** [toggleShowExpansion], lines 687-699: the state is a [Set<string>],
    here its elements in insertion order. *)
Definition toggleShowExpansion (prev : list string) (showId : string)
  : list string :=
  if existsb (fun s => (s =? showId)%string) prev
  then filter (fun s => negb (s =? showId)%string) prev
  else prev ++ [showId].

(** ** The backend refresh job ([backend/src/services/showService.ts]) *)

Module Backend.

(** What [fetchEpisodesFromTvmaze] answers for one episode. *)
Record EpisodeData : Type := {
  id : Z;
  season : Z;
  episode : Z;
  title : string;
  airDate : string;
  airTime : option string;
  runtime : option Z;
  summary : option string
}.

Definition episode_of_raw (ep : RawEpisode) : EpisodeData :=
  {| id := raw_id ep;
     season := raw_season ep;
     episode := raw_number ep;
     title := raw_name ep;
     airDate := raw_airdate ep;
     airTime := Js.or_undefined (raw_airtime ep);
     runtime := Js.num_or_null (raw_runtime ep);
     summary :=
       match Js.or_undefined (raw_summary ep) with
       | Some s => Some (Js.strip_tags s)
       | None => None
       end |}.

(** Lines 199-223 *)
Definition fetchEpisodesFromTvmaze (o : FetchOutcome)
  : Completion (list EpisodeData) :=
  try_catch
    (response <- fetch o ;;
     if negb (response_ok (fst response))
     then Throw "TVmaze API error"
     else
       episodes <- json_array (snd response) ;;
       Return (map episode_of_raw episodes))
    (fun _ => Return []).

(** Modelled from the spec: the Prisma schema and client are not among
    the sources.  The two tables hold the columns the service selects
    and writes; [id] is the key of each table. *)
Record ShowRow : Type := {
  show_id : string;
  show_tvmazeId : Z;
  show_title : string;
  show_totalEpisodes : Z;
  show_lastApiUpdate : Z
}.

Record EpisodeRow : Type := {
  row_showId : string;
  row_data : EpisodeData
}.

Record Db : Type := {
  shows : list ShowRow;
  episodes : list EpisodeRow
}.

(** A database action: it answers or throws, and leaves a database. *)
Definition DbM (A : Type) : Type := Db -> Completion A * Db.

Definition ret {A : Type} (a : A) : DbM A := fun db => (Return a, db).

Definition throw {A : Type} (e : string) : DbM A :=
  fun db => (Throw e, db).

Definition bindM {A B : Type} (m : DbM A) (k : A -> DbM B) : DbM B :=
  fun db =>
    match m db with
    | (Return a, db') => k a db'
    | (Throw e, db') => (Throw e, db')
    end.

Definition tryM {A : Type} (body : DbM A) (handler : string -> DbM A)
  : DbM A :=
  fun db =>
    match body db with
    | (Return a, db') => (Return a, db')
    | (Throw e, db') => handler e db'
    end.

Definition lift {A : Type} (c : Completion A) : DbM A :=
  fun db => (c, db).

Notation "x <~ m ;; k" := (bindM m (fun x => k))
  (at level 61, m at next level, right associativity).

(** Modelled from the spec: [prisma.show.findMany] with
    [lastApiUpdate: { lt: oneDayAgo }]. *)
Definition show_findMany_stale (oneDayAgo : Z) : DbM (list ShowRow) :=
  fun db =>
    (Return (filter (fun s => show_lastApiUpdate s <? oneDayAgo) (shows db)),
     db).

(** Modelled from the spec: [prisma.episode.findMany] with
    [where: { showId }], [select: { id: true }]. *)
Definition episode_findMany_ids (showId : string) : DbM (list Z) :=
  fun db =>
    (Return
       (map (fun r => id (row_data r))
          (filter (fun r => (row_showId r =? showId)%string) (episodes db))),
     db).

(** Modelled from the spec: [prisma.episode.createMany] with
    [skipDuplicates: true]: a row whose key is already in the table is
    skipped. *)
Definition episode_insert (table : list EpisodeRow) (r : EpisodeRow)
  : list EpisodeRow :=
  if existsb (fun r' => id (row_data r') =? id (row_data r)) table
  then table else table ++ [r].

Definition episode_createMany (rows : list EpisodeRow) : DbM unit :=
  fun db =>
    (Return tt,
     {| shows := shows db;
        episodes := fold_left episode_insert rows (episodes db) |}).

(** Modelled from the spec: [prisma.show.update] with [where: { id }]:
    it throws when no row has the key. *)
Definition show_update (showId : string) (total : Z) (now : Z)
  : DbM unit :=
  fun db =>
    if existsb (fun s => (show_id s =? showId)%string) (shows db) then
      (Return tt,
       {| shows :=
            map (fun s =>
                   if (show_id s =? showId)%string then
                     {| show_id := show_id s;
                        show_tvmazeId := show_tvmazeId s;
                        show_title := show_title s;
                        show_totalEpisodes := total;
                        show_lastApiUpdate := now |}
                   else s)
                (shows db);
          episodes := episodes db |})
    else (Throw "Record to update not found", db).

(** [updateSingleShow], lines 65-115 *)
Definition updateSingleShow (now : Z) (source : Source)
  (showId : string) (tvmazeId : Z) (title : string) : DbM unit :=
  tryM
    (latestEpisodes <~ lift (fetchEpisodesFromTvmaze (source tvmazeId)) ;;
     if (List.length latestEpisodes =? 0)%nat then ret tt
     else
       existingEpisodeIds <~ episode_findMany_ids showId ;;
       let newEpisodes :=
         filter (fun ep => negb (existsb (Z.eqb (id ep)) existingEpisodeIds))
           latestEpisodes in
       _ <~ (if (0 <? List.length newEpisodes)%nat
             then episode_createMany
                    (map (fun ep => {| row_showId := showId; row_data := ep |})
                       newEpisodes)
             else ret tt) ;;
       show_update showId (Z.of_nat (List.length latestEpisodes)) now)
    (fun error => throw error).

(** Lines 38-48: the shows of one batch, with the two counters. *)
Fixpoint update_batch (now : Z) (source : Source) (batch : list ShowRow)
  (counts : Z * Z) : DbM (Z * Z) :=
  match batch with
  | [] => ret counts
  | show :: rest =>
      counts' <~
        tryM
          (_ <~ updateSingleShow now source (show_id show)
                  (show_tvmazeId show) (show_title show) ;;
           ret (fst counts + 1, snd counts))
          (fun _ => ret (fst counts, snd counts + 1)) ;;
      update_batch now source rest counts'
  end.

Definition batchSize : nat := 5.

(** Lines 35-54; [fuel] bounds the number of rounds. *)
Fixpoint update_batches (fuel : nat) (now : Z) (source : Source)
  (showsToUpdate : list ShowRow) (i : nat) (counts : Z * Z)
  : DbM (Z * Z) :=
  match fuel with
  | O => ret counts
  | S fuel' =>
      if (i <? List.length showsToUpdate)%nat then
        let batch := firstn batchSize (skipn i showsToUpdate) in
        counts' <~ update_batch now source batch counts ;;
        update_batches fuel' now source showsToUpdate (i + batchSize) counts'
      else ret counts
  end.

(** [updateAllShowsEpisodes], lines 7-62: the answer is the pair
    [(updatedCount, errorCount)]. *)
Definition updateAllShowsEpisodes (now : Z) (source : Source)
  : DbM (Z * Z) :=
  tryM
    (let oneDayAgo := now - 24 * 60 * 60 * 1000 in
     showsToUpdate <~ show_findMany_stale oneDayAgo ;;
     update_batches (List.length showsToUpdate) now source showsToUpdate 0
       (0, 0))
    (fun error => throw error).

End Backend.

(** ** A concrete [Date]

    The ISO 8601 forms the application meets: the date-only form of a
    TVmaze [airdate] ([YYYY-MM-DD], read as midnight UTC) and the form
    written by [toISOString] ([YYYY-MM-DDTHH:mm:ss.sssZ]).  Any other
    string counts as an Invalid Date.  It instantiates [JsDate] for the
    worked examples; the general results hold for every instance. *)

Module IsoDate.

(** Days from 1970-01-01 to the civil date [y]-[m]-[d]. *)
Definition days_from_civil (y m d : Z) : Z :=
  let y' := if m <=? 2 then y - 1 else y in
  let era := y' / 400 in
  let yoe := y' - era * 400 in
  let mp := (m + 9) mod 12 in
  let doy := (153 * mp + 2) / 5 + d - 1 in
  let doe := yoe * 365 + yoe / 4 - yoe / 100 + doy in
  era * 146097 + doe - 719468.

Definition civil_from_days (days : Z) : Z * Z * Z :=
  let z := days + 719468 in
  let era := z / 146097 in
  let doe := z - era * 146097 in
  let yoe := (doe - doe / 1460 + doe / 36524 - doe / 146096) / 365 in
  let doy := doe - (365 * yoe + yoe / 4 - yoe / 100) in
  let mp := (5 * doy + 2) / 153 in
  let d := doy - (153 * mp + 2) / 5 + 1 in
  let m := if mp <? 10 then mp + 3 else mp - 9 in
  let y := yoe + era * 400 in
  (if m <=? 2 then y + 1 else y, m, d).

Definition is_leap (y : Z) : bool :=
  ((y mod 4 =? 0) && negb (y mod 100 =? 0)) || (y mod 400 =? 0).

Definition days_in_month (y m : Z) : Z :=
  if m =? 2 then (if is_leap y then 29 else 28)
  else if (m =? 4) || (m =? 6) || (m =? 9) || (m =? 11) then 30
  else 31.

Definition digit_of (c : ascii) : option Z :=
  let n := Z.of_nat (nat_of_ascii c) in
  if (48 <=? n) && (n <=? 57) then Some (n - 48) else None.

(** Reads [n] decimal digits at the head of [s]. *)
Fixpoint digits (n : nat) (acc : Z) (s : string) : option (Z * string) :=
  match n with
  | O => Some (acc, s)
  | S n' =>
      match s with
      | String c s' =>
          match digit_of c with
          | Some d => digits n' (10 * acc + d) s'
          | None => None
          end
      | EmptyString => None
      end
  end.

Definition expect (c : ascii) (s : string) : option string :=
  match s with
  | String c' s' => if Ascii.eqb c c' then Some s' else None
  | EmptyString => None
  end.

Definition parse_date (s : string) : option (Z * string) :=
  match digits 4 0 s with
  | Some (y, s1) =>
      match expect "-" s1 with
      | Some s2 =>
          match digits 2 0 s2 with
          | Some (m, s3) =>
              match expect "-" s3 with
              | Some s4 =>
                  match digits 2 0 s4 with
                  | Some (d, s5) =>
                      if (1 <=? m) && (m <=? 12) && (1 <=? d)
                         && (d <=? days_in_month y m)
                      then Some (days_from_civil y m d * 86400000, s5)
                      else None
                  | None => None
                  end
              | None => None
              end
          | None => None
          end
      | None => None
      end
  | None => None
  end.

Definition parse_time (s : string) : option Z :=
  match digits 2 0 s with
  | Some (h, s1) =>
      match expect ":" s1 with
      | Some s2 =>
          match digits 2 0 s2 with
          | Some (mi, s3) =>
              match expect ":" s3 with
              | Some s4 =>
                  match digits 2 0 s4 with
                  | Some (sec, s5) =>
                      match expect "." s5 with
                      | Some s6 =>
                          match digits 3 0 s6 with
                          | Some (ms, String "Z" EmptyString) =>
                              if (h <=? 23) && (mi <=? 59) && (sec <=? 59)
                              then Some (((h * 60 + mi) * 60 + sec) * 1000 + ms)
                              else None
                          | _ => None
                          end
                      | None => None
                      end
                  | None => None
                  end
              | None => None
              end
          | None => None
          end
      | None => None
      end
  | None => None
  end.

Definition parse (s : string) : option Z :=
  match parse_date s with
  | Some (day_ms, EmptyString) => Some day_ms
  | Some (day_ms, String "T" rest) =>
      match parse_time rest with
      | Some t => Some (day_ms + t)
      | None => None
      end
  | _ => None
  end.

Definition digit_char (d : Z) : ascii := ascii_of_nat (48 + Z.to_nat d).

(** [n] in decimal, on [width] digits. *)
Fixpoint pad (width : nat) (n : Z) : string :=
  match width with
  | O => EmptyString
  | S w =>
      String.append (pad w (n / 10))
        (String (digit_char (n mod 10)) EmptyString)
  end.

Definition concat_all (parts : list string) : string :=
  fold_right String.append EmptyString parts.

Definition format (t : Z) : string :=
  let days := t / 86400000 in
  let ms := t mod 86400000 in
  let '(y, m, d) := civil_from_days days in
  let year :=
    if (0 <=? y) && (y <=? 9999) then pad 4 y
    else String.append (if Z.ltb y 0 then "-"%string else "+"%string)
           (pad 6 (Z.abs y))
  in
  concat_all
    [year; "-"%string; pad 2 m; "-"%string; pad 2 d; "T"%string;
     pad 2 (ms / 3600000); ":"%string; pad 2 (ms / 60000 mod 60);
     ":"%string; pad 2 (ms / 1000 mod 60); "."%string; pad 3 (ms mod 1000);
     "Z"%string].

#[global] Instance iso : JsDate := {|
  Date_parse := parse;
  toISOString := format
|}.

End IsoDate.

(** ** What the specification asks for *)

Section Specification.
Context `{D : JsDate}.

(** An episode has aired when its air date is known and not after
    [now] (glossary, "Aired"). *)
Definition aired (now : Z) (ep : Episode.t) : Prop :=
  exists t, Date_parse (Episode.airDate ep) = Some t /\ t <= now.

(** An episode is a candidate for "next to watch" when it is not
    watched and has aired. *)
Definition candidate (now : Z) (ep : Episode.t) : Prop :=
  Episode.watched ep = false /\ aired now ep.

(** [ep'] is [ep] but for its watch state. *)
Definition same_but_watch (ep ep' : Episode.t) : Prop :=
  Episode.with_watch ep' (Episode.watched ep) (Episode.watchedDate ep) = ep.

(** Aired-only bulk marking (section 4.5) of one episode: within the
    scope of the action, marking watched makes the episode watched
    exactly when it has aired and unmarking makes it unwatched; outside
    the scope the episode is left as it is. *)
Definition bulk_marked (now : Z) (inScope : Episode.t -> bool)
  (watched : bool) (ep ep' : Episode.t) : Prop :=
  if inScope ep then
    same_but_watch ep ep' /\
    (watched = true -> (Episode.watched ep' = true <-> aired now ep)) /\
    (watched = false -> Episode.watched ep' = false)
  else ep' = ep.

(** A targeted operation on the show [showId] leaves the rest of the
    watchlist alone. *)
Definition frame (showId : string) (wl wl' : Watchlist) : Prop :=
  List.length wl' = List.length wl /\
  (forall i show, nth_error wl i = Some show -> Show.id show <> showId ->
                  nth_error wl' i = Some show) /\
  ((forall show, In show wl -> Show.id show <> showId) -> wl' = wl).

(** [a] comes no later than [b]: by air date, then season, then episode
    number. *)
Definition airs_no_later (a b : Episode.t) : Prop :=
  match Date_parse (Episode.airDate a), Date_parse (Episode.airDate b) with
  | Some ta, Some tb =>
      ta < tb \/
      (ta = tb /\
       (Episode.season a < Episode.season b \/
        (Episode.season a = Episode.season b /\
         Episode.episode a <= Episode.episode b)))
  | _, _ => False
  end.

(** The resolver of the specification (section 4.4): the earliest
    candidate, or nothing when there is no candidate. *)
Definition earliest_candidate (now : Z) (episodes : list Episode.t)
  (next : option NextEpisode.t) : Prop :=
  match next with
  | Some snapshot =>
      exists ep,
        In ep episodes /\ candidate now ep /\
        snapshot = nextEpisode_snapshot ep /\
        forall ep', In ep' episodes -> candidate now ep' ->
                    airs_no_later ep ep'
  | None => forall ep, In ep episodes -> ~ candidate now ep
  end.

(** The candidates stand in the list in the order in which they air. *)
Definition in_air_order (now : Z) (episodes : list Episode.t) : Prop :=
  StronglySorted
    (fun a b => candidate now a -> candidate now b -> airs_no_later a b)
    episodes.

(** What the code resolves: the first candidate in the order of the
    list. *)
Definition first_candidate (now : Z) (episodes : list Episode.t)
  (next : option NextEpisode.t) : Prop :=
  match next with
  | Some snapshot =>
      exists before ep after,
        episodes = before ++ ep :: after /\ candidate now ep /\
        snapshot = nextEpisode_snapshot ep /\
        forall ep', In ep' before -> ~ candidate now ep'
  | None => forall ep, In ep episodes -> ~ candidate now ep
  end.

(** The show-level invariant of the data model (section 3). *)
Definition watched_invariant (show : Show.t) : Prop :=
  Show.watched show = Some true <->
  (Show.totalEpisodes show > 0 /\
   Show.watchedEpisodesCount show = Show.totalEpisodes show).

(** The stored aggregates agree with the stored episodes. *)
Definition aggregates_agree (show : Show.t) : Prop :=
  Show.totalEpisodes show = Z.of_nat (List.length (Show.episodes show)) /\
  Show.watchedEpisodesCount show = count_watched (Show.episodes show) /\
  Show.watched show =
    Some (all_watched (Show.watchedEpisodesCount show)
            (Show.totalEpisodes show)).

(** The states of the watchlist: one step is one operation of the
    application, with any arguments, clock readings and catalogue. *)
Inductive step : Watchlist -> Watchlist -> Prop :=
| step_add now now' source wl item :
    step wl (addToWatchlist now now' source wl item)
| step_add_pending now wl item :
    step wl (addToWatchlist_pending now wl item)
| step_add_loaded now now' source wl item :
    step wl (addToWatchlist_loaded now now' source wl item)
| step_remove wl itemId :
    step wl (removeFromWatchlist wl itemId)
| step_markSeries now wl showId watched :
    step wl (markSeriesWatched now wl showId watched)
| step_markAsWatched now wl itemId :
    step wl (markAsWatched now wl itemId)
| step_toggleEpisode now wl showId episodeId :
    step wl (toggleEpisodeWatched now wl showId episodeId)
| step_markSeason now wl showId seasonNumber watched :
    step wl (markSeasonWatched now wl showId seasonNumber watched)
| step_toggleSeasonExpansion wl showId seasonNumber :
    step wl (toggleSeasonExpansion wl showId seasonNumber)
| step_daily now source wl :
    step wl (updateShowsDaily now source wl).

(** The watchlist starts empty ([useState<Show[]>([])]). *)
Inductive reachable : Watchlist -> Prop :=
| reachable_init : reachable []
| reachable_step wl wl' : reachable wl -> step wl wl' -> reachable wl'.

End Specification.

(** *** Vocabulary of the further properties *)

Section PanelVocabulary.
Context `{D : JsDate}.

(** An episode airs after [now]. *)
Definition upcoming (now : Z) (ep : Episode.t) : Prop :=
  exists t, Date_parse (Episode.airDate ep) = Some t /\ now < t.

(** [e] is an episode, passing [keep], of a tracked show that is not
    watched, tagged with the identifier and the title of that show. *)
Definition panel_entry (keep : Episode.t -> Prop) (watchlist : Watchlist)
  (e : PanelEpisode.t) : Prop :=
  exists show,
    In show watchlist /\ isWatched show = false /\
    In (PanelEpisode.ep e) (Show.episodes show) /\
    keep (PanelEpisode.ep e) /\
    PanelEpisode.showId e = Show.id show /\
    PanelEpisode.showTitle e = info_title (Show.info show).

(** [a] airs no later than [b], both air dates being known. *)
Definition airs_before (a b : PanelEpisode.t) : Prop :=
  exists ta tb,
    Date_parse (panel_airDate a) = Some ta /\
    Date_parse (panel_airDate b) = Some tb /\ ta <= tb.

(** The order in which a panel lists two episodes. *)
Definition latest_order (order : LatestOrder) (a b : PanelEpisode.t)
  : Prop :=
  match order with
  | newest => airs_before b a
  | oldest => airs_before a b
  end.

Definition upcoming_order (order : UpcomingOrder) (a b : PanelEpisode.t)
  : Prop :=
  match order with
  | soonest => airs_before a b
  | latest => airs_before b a
  end.

(** A panel of at most ten entries in the order [listed]: its entries
    are entries of [all], and an entry of [all] that it leaves out comes
    after every one it lists, the panel being full. *)
Definition first_ten (listed : PanelEpisode.t -> PanelEpisode.t -> Prop)
  (all : PanelEpisode.t -> Prop) (panel : list PanelEpisode.t) : Prop :=
  (List.length panel <= 10)%nat /\
  (forall e, In e panel -> all e) /\
  StronglySorted listed panel /\
  (forall e, all e ->
             In e panel \/
             (List.length panel = 10%nat /\
              forall a, In a panel -> listed a e)).

End PanelVocabulary.

(** [show'] is [show] but for its [expandedSeasons]. *)
Definition same_but_expanded (show show' : Show.t) : Prop :=
  Show.mk (Show.id show') (Show.info show') (Show.tvmazeId show')
    (Show.nextEpisode show') (Show.addedDate show') (Show.watched show')
    (Show.watchedEpisodes show') (Show.watchedDate show')
    (Show.seasons show') (Show.episodes show') (Show.totalEpisodes show')
    (Show.watchedEpisodesCount show') (Show.lastUpdated show')
    (Show.expandedSeasons show) = show.

(** [show.expandedSeasons || []] *)
Definition expanded (show : Show.t) : list Z :=
  match Show.expandedSeasons show with
  | Some l => l
  | None => []
  end.

(** The seasons of a show are the aggregation of its episodes. *)
Definition seasons_agree (show : Show.t) : Prop :=
  Show.seasons show = organizeEpisodesIntoSeasons (Show.episodes show).

(** The keys of the episode table of the backend. *)
Definition episode_keys (table : list Backend.EpisodeRow) : list Z :=
  map (fun r => Backend.id (Backend.row_data r)) table.


(** The rows that [updateSingleShow] hands to [createMany]. *)
Definition newRows (showId : string) (latest : list Backend.EpisodeData)
  (table : list Backend.EpisodeRow) : list Backend.EpisodeRow :=
  map (fun ep => {| Backend.row_showId := showId; Backend.row_data := ep |})
    (filter
       (fun ep =>
          negb (existsb (Z.eqb (Backend.id ep))
                  (map (fun r => Backend.id (Backend.row_data r))
                     (filter (fun r => (Backend.row_showId r =? showId)%string)
                        table))))
       latest).

(** A string holds a tag: a [<] with a [>] somewhere after it. *)
Fixpoint has_tag (s : string) : bool :=
  match s with
  | EmptyString => false
  | String c s' => (Ascii.eqb c "<" && Js.has_gt s') || has_tag s'
  end.

Definition Zsum (l : list Z) : Z := fold_right Z.add 0 l.

(** Sum of a field over the seasons. *)
Definition sum_seasons (f : Season.t -> Z) (seasons : list Season.t) : Z :=
  Zsum (map f seasons).

(** Sum of a measure of the buckets over the entries of the season map. *)
Definition sum_buckets (measure : list Episode.t -> Z)
  (m : Js.Map.t (list Episode.t)) : Z :=
  Zsum (map (fun entry => measure (snd entry)) m).

(** The input episodes of season [n], in the order of the input. *)
Definition episodes_of_season (n : Z) (episodes : list Episode.t)
  : list Episode.t :=
  filter (fun ep => Episode.season ep =? n) episodes.

(** The map after the pass over [done]: one entry per season met, its
    bucket holding the episodes of that season in the order met. *)
Definition groups (m : Js.Map.t (list Episode.t)) (done : list Episode.t)
  : Prop :=
  NoDup (map fst m) /\
  forall k,
    Js.Map.get m k =
    match episodes_of_season k done with
    | [] => None
    | bucket => Some bucket
    end.

(** Section 4.2 asks that the episodes whose season number is not a
    valid one (the data model has season numbers from 1 on) share one
    bucket of the output. *)
Definition unknown_bucket (episodes : list Episode.t)
  (seasons : list Season.t) : Prop :=
  exists bucket,
    In bucket seasons /\
    forall ep, In ep episodes -> Episode.season ep < 1 ->
               In ep (Season.episodes bucket).

(** Section 4.1 asks that a failed request is answered by an error and
    that an empty answer means a show without episodes. *)
Definition request_failed (o : FetchOutcome) : Prop :=
  match o with
  | NetworkError => True
  | Response status _ => response_ok status = false
  end.

Definition distinguishes_failure {A : Type}
  (fetchEpisodes : FetchOutcome -> Completion (list A)) : Prop :=
  forall o,
    (request_failed o -> exists err, fetchEpisodes o = Throw err) /\
    (fetchEpisodes o = Return [] ->
     exists status, response_ok status = true /\
                    o = Response status (EpisodeArray [])).

(** ** Sample data for the worked examples *)

Module Sample.

Definition info : ShowInfo :=
  {| info_title := "Sample";
     info_type := "tv";
     info_year := "2024";
     info_platform := "Unknown Platform";
     info_genres := [];
     info_status := "Running";
     info_poster := "";
     info_rating := "N/A";
     info_summary := "No summary available";
     info_language := "English";
     info_runtime := 60;
     info_premiered := "2024-01-01";
     info_officialSite := "";
     info_tvmazeUrl := "";
     info_lastWatchedEpisode := None |}.

Definition episode (id season number : Z) (airDate : string)
  (watched : bool) : Episode.t :=
  Episode.mk id season number "Episode" airDate None (Some 60)
    (Some EmptyString) watched
    (if watched then Some "2024-01-02T20:00:00.000Z"%string else None).

Definition raw (id season number : Z) (airDate : string) : RawEpisode :=
  {| raw_id := id;
     raw_season := season;
     raw_number := number;
     raw_name := "Episode";
     raw_airdate := airDate;
     raw_airtime := None;
     raw_runtime := Some 60;
     raw_summary := None |}.

(** A search result, as [handleSearch] builds it. *)
Definition item (tvmazeId : Z) (id : string) : Show.t :=
  Show.mk id info tvmazeId None None None None None [] [] 0 0
    (Some "2024-01-01T00:00:00.000Z"%string) (Some []).

(** A tracked show holding [episodes], last refreshed at [lastUpdated]. *)
Definition tracked (tvmazeId : Z) (id : string)
  (episodes : list Episode.t) (lastUpdated : string) : Show.t :=
  Show.mk id info tvmazeId None (Some "2024-01-01T00:00:00.000Z"%string)
    (Some (all_watched (count_watched episodes)
             (Z.of_nat (List.length episodes))))
    (Some []) None (organizeEpisodesIntoSeasons episodes) episodes
    (Z.of_nat (List.length episodes)) (count_watched episodes)
    (Some lastUpdated) (Some []).

(** The catalogue of the batch example: the request for show 3 does not
    connect; every other show has two episodes. *)
Definition source (tvmazeId : Z) : FetchOutcome :=
  if tvmazeId =? 3 then NetworkError
  else
    Response 200
      (EpisodeArray
         [raw (10 * tvmazeId + 1) 1 1 "2024-01-01";
          raw (10 * tvmazeId + 2) 1 2 "2024-02-01"]).

(** A show last refreshed on 10 January 2024, whose one known episode
    is watched. *)
Definition stale_show (tvmazeId : Z) (id : string) : Show.t :=
  tracked tvmazeId id [episode (10 * tvmazeId + 1) 1 1 "2024-01-01" true]
    "2024-01-10T00:00:00.000Z".

Definition five_stale_shows : Watchlist :=
  [stale_show 1 "tvmaze-1"; stale_show 2 "tvmaze-2"; stale_show 3 "tvmaze-3";
   stale_show 4 "tvmaze-4"; stale_show 5 "tvmaze-5"].

Definition stale_row (tvmazeId : Z) (id : string) : Backend.ShowRow :=
  {| Backend.show_id := id;
     Backend.show_tvmazeId := tvmazeId;
     Backend.show_title := "Sample";
     Backend.show_totalEpisodes := 1;
     Backend.show_lastApiUpdate := 1704844800000 |}.

Definition episode_row (tvmazeId : Z) (id : string) : Backend.EpisodeRow :=
  {| Backend.row_showId := id;
     Backend.row_data :=
       Backend.episode_of_raw (raw (10 * tvmazeId + 1) 1 1 "2024-01-01") |}.

Definition five_stale_rows : Backend.Db :=
  {| Backend.shows :=
       [stale_row 1 "show-1"; stale_row 2 "show-2"; stale_row 3 "show-3";
        stale_row 4 "show-4"; stale_row 5 "show-5"];
     Backend.episodes :=
       [episode_row 1 "show-1"; episode_row 2 "show-2";
        episode_row 3 "show-3"; episode_row 4 "show-4";
        episode_row 5 "show-5"] |}.

(** A stored show with one watched episode, and a fresh list in which
    that episode has been renamed and a second one has appeared. *)
Definition stored_show : Show.t :=
  tracked 9 "tvmaze-9" [episode 91 1 1 "2024-01-01" true]
    "2024-01-10T00:00:00.000Z".

Definition renamed_episode : Episode.t :=
  Episode.mk 91 1 1 "Pilot (extended)" "2024-01-03" (Some "21:00"%string)
    (Some 75) (Some EmptyString) false None.

Definition fresh_list : list Episode.t :=
  [renamed_episode; episode 92 1 2 "2024-02-01" false].

(** A show of two seasons on 1 March 2024: the second episode of
    season 1 airs in June. *)
Definition two_seasons : Show.t :=
  tracked 7 "tvmaze-7"
    [episode 71 1 1 "2024-01-01" false;
     episode 72 1 2 "2024-06-01" false;
     episode 73 2 1 "2024-02-01" true]
    "2024-02-28T00:00:00.000Z".

(** 1 March 2024, 00:00 UTC *)
Definition march_2024 : Z := 1709251200000.

(** 15 January 2024, 00:00 UTC *)
Definition mid_january_2024 : Z := 1705276800000.

(** Show 1 is added on 15 January 2024, its two episodes are loaded on
    1 March 2024, and both are then toggled. *)
Definition session : Watchlist :=
  toggleEpisodeWatched march_2024
    (toggleEpisodeWatched march_2024
       (addToWatchlist mid_january_2024 march_2024 source []
          (item 1 "tvmaze-1"))
       "tvmaze-1" 11)
    "tvmaze-1" 12.

End Sample.

(** * Properties *)

Example iso_parse_date : Date_parse "2024-02-01" = Some 1706745600000.
Proof. reflexivity. Qed.

Example iso_format_date :
  toISOString 1706745600123 = "2024-02-01T00:00:00.123Z"%string.
Proof. reflexivity. Qed.

Example iso_parse_format :
  Date_parse (toISOString 1718201045678) = Some 1718201045678.
Proof. reflexivity. Qed.

Example iso_parse_empty : Date_parse "" = None.
Proof. reflexivity. Qed.

(** ** The merge of fetched episodes with stored watch state *)

Section Merge.

Lemma or_undefined_idem (s : option string) :
  Js.or_undefined (Js.or_undefined s) = Js.or_undefined s.
Proof. destruct s as [[|c s]|]; reflexivity. Qed.

Lemma or_undefined_nonempty (s : option string) :
  s <> Some EmptyString -> Js.or_undefined s = s.
Proof. destruct s as [[|c s]|]; intros H; try reflexivity; congruence. Qed.

Lemma mergeEpisode_id existing freshEp :
  Episode.id (mergeEpisode existing freshEp) = Episode.id freshEp.
Proof. reflexivity. Qed.

(** The merged episode is the fresh one with the watch state of the
    stored episode found for its identifier. *)
Lemma mergeEpisode_found existing freshEp prior :
  existingEp existing freshEp = Some prior ->
  mergeEpisode existing freshEp =
  Episode.with_watch freshEp (Episode.watched prior)
    (Js.or_undefined (Episode.watchedDate prior)).
Proof.
  intros Hfind. unfold mergeEpisode. rewrite Hfind.
  now rewrite orb_false_r.
Qed.

Lemma mergeEpisode_new existing freshEp :
  existingEp existing freshEp = None ->
  mergeEpisode existing freshEp = Episode.with_watch freshEp false None.
Proof. intros Hfind. unfold mergeEpisode. now rewrite Hfind. Qed.

(** The lookup depends on the identifier only. *)
Lemma existingEp_same_id existing a b :
  Episode.id a = Episode.id b -> existingEp existing a = existingEp existing b.
Proof. intros Heq. unfold existingEp. now rewrite Heq. Qed.

(** With distinct identifiers the lookup answers the one episode that
    carries the identifier. *)
Lemma existingEp_unique existing freshEp prior :
  NoDup (map Episode.id existing) -> In prior existing ->
  Episode.id prior = Episode.id freshEp ->
  existingEp existing freshEp = Some prior.
Proof.
  unfold existingEp. intros Hnd Hin <-.
  induction existing as [|a l IH]; simpl; [contradiction|].
  inversion Hnd as [|x xs Hnotin Hnd']; subst.
  destruct Hin as [->|Hin].
  - now rewrite Z.eqb_refl.
  - destruct (Z.eqb_spec (Episode.id a) (Episode.id prior)) as [Heq|Hne].
    + exfalso. apply Hnotin. rewrite Heq. now apply in_map.
    + now apply IH.
Qed.

Lemma existingEp_absent existing freshEp :
  (forall prior, In prior existing ->
                 Episode.id prior <> Episode.id freshEp) ->
  existingEp existing freshEp = None.
Proof.
  unfold existingEp.
  induction existing as [|a l IH]; simpl; intros H; [reflexivity|].
  destruct (Z.eqb_spec (Episode.id a) (Episode.id freshEp)) as [Heq|Hne].
  - exfalso. now apply (H a); [left|].
  - apply IH. intros prior Hin. apply H. now right.
Qed.

Lemma existingEp_id existing freshEp prior :
  existingEp existing freshEp = Some prior ->
  Episode.id prior = Episode.id freshEp.
Proof.
  unfold existingEp. intros H. apply find_some in H. destruct H as [_ H].
  now apply Z.eqb_eq.
Qed.

Lemma existingEp_in existing freshEp :
  In freshEp existing -> exists prior, existingEp existing freshEp = Some prior.
Proof.
  unfold existingEp. intros Hin.
  destruct (find _ existing) eqn:Hf.
  - now eexists.
  - exfalso. apply (find_none _ _ Hf) in Hin.
    now rewrite Z.eqb_refl in Hin.
Qed.

(** Looking an identifier up in a merged list is looking it up in the
    fresh list and merging what is found. *)
Lemma existingEp_mergeEpisodes existing fresh freshEp :
  existingEp (mergeEpisodes existing fresh) freshEp =
  option_map (mergeEpisode existing) (existingEp fresh freshEp).
Proof.
  unfold existingEp.
  induction fresh as [|f fresh IH]; simpl; [reflexivity|].
  destruct (Episode.id f =? Episode.id freshEp); [reflexivity|exact IH].
Qed.

Lemma mergeEpisode_twice existing fresh freshEp :
  In freshEp fresh ->
  mergeEpisode (mergeEpisodes existing fresh) freshEp =
  mergeEpisode existing freshEp.
Proof.
  intros Hin.
  destruct (existingEp_in fresh freshEp Hin) as [f' Hf'].
  pose proof (existingEp_id _ _ _ Hf') as Hid.
  unfold mergeEpisode at 1.
  rewrite existingEp_mergeEpisodes, Hf'. simpl.
  unfold mergeEpisode.
  rewrite (existingEp_same_id existing f' freshEp Hid).
  destruct (existingEp existing freshEp) as [prior|]; simpl.
  - rewrite !orb_false_r. now rewrite or_undefined_idem.
  - reflexivity.
Qed.

Lemma mergeEpisodes_twice (P F : list Episode.t) :
  mergeEpisodes (mergeEpisodes P F) F = mergeEpisodes P F.
Proof.
  unfold mergeEpisodes at 1 3.
  apply map_ext_in. intros f Hin.
  now apply mergeEpisode_twice.
Qed.

End Merge.

Section Refresh.
Context `{D : JsDate}.

Lemma refreshShow_episodes now F show :
  Show.episodes (refreshShow now F show) =
  mergeEpisodes (Show.episodes show) F.
Proof. reflexivity. Qed.

(** C3 -- Merge idempotence: merging the fresh list [F] into the result
    of merging [F] into the stored list [P] gives the same episode list
    as merging [F] into [P] once; so a show refreshed twice in a row
    with [F], at whatever instants, has the episode list it had after
    the first refresh, and with one clock reading it is the same show. *)
Theorem merge_idempotent (P F : list Episode.t) (now now' : Z)
  (show : Show.t) :
  mergeEpisodes (mergeEpisodes P F) F = mergeEpisodes P F /\
  Show.episodes (refreshShow now' F (refreshShow now F show)) =
  Show.episodes (refreshShow now F show) /\
  refreshShow now F (refreshShow now F show) = refreshShow now F show.
Proof.
  split; [apply mergeEpisodes_twice|split].
  - rewrite !refreshShow_episodes. apply mergeEpisodes_twice.
  - unfold refreshShow. simpl. now rewrite mergeEpisodes_twice.
Qed.

(** C1 -- Watch-state preservation across a refresh.  [P] is the stored
    episode list of the show and [F] the freshly fetched list.  The
    episode [E] at any position of [F] is at the same position of the
    refreshed list, with its fresh fields.  When the stored episode
    found for its identifier was watched, it is watched and carries the
    stored [watchedDate] (a timestamp, hence not the empty string); with
    the identifiers of [P] pairwise distinct, as the data model has
    them, that stored episode is the episode of [P] that has the
    identifier of [E].  When the identifier of [E] is not in [P], [E] is
    not watched. *)
Theorem watch_state_preserved (now : Z) (show : Show.t)
  (F : list Episode.t) (i : nat) (E : Episode.t) :
  nth_error F i = Some E ->
  (forall prior,
      existingEp (Show.episodes show) E = Some prior ->
      Episode.watched prior = true ->
      Episode.watchedDate prior <> Some EmptyString ->
      nth_error (Show.episodes (refreshShow now F show)) i =
      Some (Episode.with_watch E true (Episode.watchedDate prior)))
  /\
  (forall prior,
      NoDup (map Episode.id (Show.episodes show)) ->
      In prior (Show.episodes show) ->
      Episode.id prior = Episode.id E ->
      Episode.watched prior = true ->
      Episode.watchedDate prior <> Some EmptyString ->
      nth_error (Show.episodes (refreshShow now F show)) i =
      Some (Episode.with_watch E true (Episode.watchedDate prior)))
  /\
  ((forall prior, In prior (Show.episodes show) ->
                  Episode.id prior <> Episode.id E) ->
   nth_error (Show.episodes (refreshShow now F show)) i =
   Some (Episode.with_watch E false None)).
Proof.
  intros HE. rewrite refreshShow_episodes. unfold mergeEpisodes.
  rewrite nth_error_map, HE. simpl.
  assert (Hfound : forall prior,
             existingEp (Show.episodes show) E = Some prior ->
             Episode.watched prior = true ->
             Episode.watchedDate prior <> Some EmptyString ->
             Some (mergeEpisode (Show.episodes show) E) =
             Some (Episode.with_watch E true (Episode.watchedDate prior))).
  { intros prior Hfind Hw Hdate. f_equal.
    rewrite (mergeEpisode_found _ _ prior Hfind).
    now rewrite Hw, or_undefined_nonempty. }
  split; [exact Hfound|split].
  - intros prior Hnd Hin Hid Hw Hdate. apply Hfound; try assumption.
    now apply existingEp_unique.
  - intros Habsent. f_equal.
    apply mergeEpisode_new. now apply existingEp_absent.
Qed.

End Refresh.

(** ** The next episode *)

Section NextEpisodeResolution.
Context `{D : JsDate}.

Lemma hasAired_iff now airDate :
  hasAired now airDate = true <->
  exists t, Date_parse airDate = Some t /\ t <= now.
Proof.
  unfold hasAired. destruct (Date_parse airDate) as [t|]; split.
  - intros H. exists t. split; [reflexivity|]. now apply Z.leb_le.
  - intros [t' [Ht' Hle]]. injection Ht' as <-. now apply Z.leb_le.
  - discriminate.
  - intros [t [Ht _]]. discriminate.
Qed.

(** The test of the [find] callback is the candidate predicate. *)
Lemma candidate_iff now ep :
  negb (Episode.watched ep) && hasAired now (Episode.airDate ep) = true <->
  candidate now ep.
Proof.
  unfold candidate. rewrite andb_true_iff, negb_true_iff, hasAired_iff.
  reflexivity.
Qed.

Lemma find_first {A : Type} (p : A -> bool) (l : list A) (x : A) :
  find p l = Some x ->
  exists before after,
    l = before ++ x :: after /\ p x = true /\
    forall y, In y before -> p y = false.
Proof.
  induction l as [|a l IH]; simpl; [discriminate|].
  destruct (p a) eqn:Hpa.
  - intros [= ->]. exists [], l. repeat split; [assumption|].
    intros y [].
  - intros Hfind. destruct (IH Hfind) as [before [after [-> [Hpx Hbefore]]]].
    exists (a :: before), after. repeat split; [assumption|].
    intros y [<-|Hin]; [assumption|now apply Hbefore].
Qed.

Lemma not_candidate now ep :
  negb (Episode.watched ep) && hasAired now (Episode.airDate ep) = false ->
  ~ candidate now ep.
Proof.
  intros Hf Hc. apply candidate_iff in Hc. congruence.
Qed.

Lemma airs_no_later_refl now ep : candidate now ep -> airs_no_later ep ep.
Proof.
  intros [_ [t [Ht _]]]. unfold airs_no_later. rewrite Ht.
  right. split; [reflexivity|]. right. split; [reflexivity|lia].
Qed.

Lemma StronglySorted_middle {A : Type} (R : A -> A -> Prop)
  (before after : list A) (x : A) :
  StronglySorted R (before ++ x :: after) -> Forall (R x) after.
Proof.
  induction before as [|b before IH]; simpl; intros Hs;
    apply StronglySorted_inv in Hs; destruct Hs as [Hs Hall].
  - exact Hall.
  - now apply IH.
Qed.

(** On a list whose candidates stand in air order the first candidate
    is the earliest one. *)
Lemma first_candidate_earliest now episodes next :
  in_air_order now episodes ->
  first_candidate now episodes next -> earliest_candidate now episodes next.
Proof.
  intros Hsorted. destruct next as [snapshot|]; simpl; [|auto].
  intros [before [ep [after [Heq [Hc [Hsnap Hbefore]]]]]].
  exists ep. repeat split; try assumption; try apply Hc.
  - rewrite Heq. apply in_or_app. right. now left.
  - intros ep' Hin Hc'. rewrite Heq in Hin, Hsorted.
    apply in_app_or in Hin. destruct Hin as [Hin|[<-|Hin]].
    + exfalso. now apply (Hbefore ep').
    + now apply (airs_no_later_refl now).
    + apply StronglySorted_middle in Hsorted.
      rewrite Forall_forall in Hsorted. now apply Hsorted.
Qed.

(** C2, as the code has it -- Next-episode resolution: for every episode
    list and instant [now], the resolved [nextEpisode] is a snapshot of
    the first episode, in the order of the list, that is not watched and
    whose air date is known and not after [now]; it is [null] exactly
    when the list has no such episode, whatever it holds of later
    episodes; an episode whose air date does not parse is never the one
    resolved; and when the list has its candidates in air order (by air
    date, then season, then episode number) the resolved episode is the
    earliest of them. *)
Theorem next_episode_is_first_candidate (now : Z)
  (episodes : list Episode.t) :
  first_candidate now episodes (resolveNextEpisode now episodes) /\
  (resolveNextEpisode now episodes = None <->
   forall ep, In ep episodes -> ~ candidate now ep) /\
  (forall ep, nextUnwatched now episodes = Some ep ->
              Date_parse (Episode.airDate ep) <> None) /\
  (in_air_order now episodes ->
   earliest_candidate now episodes (resolveNextEpisode now episodes)).
Proof.
  assert (Hfirst : first_candidate now episodes
                     (resolveNextEpisode now episodes) /\
                   (resolveNextEpisode now episodes = None <->
                    forall ep, In ep episodes -> ~ candidate now ep) /\
                   (forall ep, nextUnwatched now episodes = Some ep ->
                               Date_parse (Episode.airDate ep) <> None)).
  { unfold resolveNextEpisode, nextUnwatched.
    destruct (find _ episodes) as [ep|] eqn:Hfind.
    - destruct (find_first _ _ _ Hfind)
        as [before [after [Heq [Hp Hbefore]]]].
      apply candidate_iff in Hp.
      split; [|split].
      + simpl. exists before, ep, after. repeat split; try assumption.
        * apply Hp.
        * apply Hp.
        * intros ep' Hin. apply not_candidate. now apply Hbefore.
      + split; [discriminate|].
        intros Hnone. exfalso. apply (Hnone ep); [|exact Hp].
        rewrite Heq. apply in_or_app. right. now left.
      + intros ep' [= <-]. destruct Hp as [_ [t [Ht _]]]. congruence.
    - assert (Hnone : forall ep, In ep episodes -> ~ candidate now ep).
      { intros ep Hin. apply not_candidate.
        exact (find_none _ _ Hfind ep Hin). }
      split; [|split].
      + exact Hnone.
      + split; [intros _; exact Hnone|reflexivity].
      + discriminate. }
  destruct Hfirst as [H1 [H2 H3]].
  repeat split; try assumption; try apply H2.
  intros Hsorted. now apply first_candidate_earliest.
Qed.

End NextEpisodeResolution.

(** C2, as the specification states it, fails: with the February episode
    listed before the January one and both unwatched on 1 March 2024, the
    code resolves the February episode, which is not the earliest by air
    date. *)
Lemma next_episode_not_earliest :
  ~ earliest_candidate Sample.march_2024
      [Sample.episode 2 1 2 "2024-02-01" false;
       Sample.episode 1 1 1 "2024-01-01" false]
      (resolveNextEpisode Sample.march_2024
         [Sample.episode 2 1 2 "2024-02-01" false;
          Sample.episode 1 1 1 "2024-01-01" false]).
Proof.
  change (resolveNextEpisode Sample.march_2024
            [Sample.episode 2 1 2 "2024-02-01" false;
             Sample.episode 1 1 1 "2024-01-01" false])
    with (Some (nextEpisode_snapshot (Sample.episode 2 1 2 "2024-02-01" false))).
  intros [ep [Hin [_ [Hsnap Hall]]]].
  assert (Hc : candidate Sample.march_2024
                 (Sample.episode 1 1 1 "2024-01-01" false)).
  { split; [reflexivity|]. exists 1704067200000. split; [reflexivity|].
    unfold Sample.march_2024. lia. }
  specialize (Hall _ (or_intror (or_introl eq_refl)) Hc).
  destruct Hin as [<-|[<-|[]]].
  - vm_compute in Hall.
    destruct Hall as [H|[H _]]; discriminate H.
  - discriminate Hsnap.
Qed.

(** The list of section 8 of the specification, on 15 January 2024: the
    February and March episodes have not aired, nothing is resolved. *)
Example section8_list_resolves_nothing :
  resolveNextEpisode Sample.mid_january_2024
    [Sample.episode 1 1 1 "2024-01-01" true;
     Sample.episode 2 1 2 "2024-02-01" false;
     Sample.episode 3 1 3 "2024-03-01" false] = None.
Proof. reflexivity. Qed.

(** ** The operations on the watchlist *)

Section Watchlist.
Context `{D : JsDate}.

Lemma findShow_some id wl show :
  findShow id wl = Some show -> In show wl /\ Show.id show = id.
Proof.
  unfold findShow. intros H. apply find_some in H.
  destruct H as [Hin Heq]. split; [assumption|].
  now apply String.eqb_eq.
Qed.

Lemma findShow_none id wl :
  findShow id wl = None <-> forall show, In show wl -> Show.id show <> id.
Proof.
  unfold findShow. split.
  - intros H show Hin Heq.
    pose proof (find_none _ _ H show Hin) as Hf. simpl in Hf.
    apply String.eqb_neq in Hf. contradiction.
  - intros H. destruct (find _ wl) as [show|] eqn:Hf; [|reflexivity].
    exfalso. apply find_some in Hf. destruct Hf as [Hin Heq].
    apply (H show Hin). now apply String.eqb_eq.
Qed.

Lemma replaceShow_length id updated wl :
  List.length (replaceShow id updated wl) = List.length wl.
Proof. unfold replaceShow. apply length_map. Qed.

Lemma replaceShow_other id updated wl i show :
  nth_error wl i = Some show -> Show.id show <> id ->
  nth_error (replaceShow id updated wl) i = Some show.
Proof.
  intros Hnth Hne. unfold replaceShow. rewrite nth_error_map, Hnth. simpl.
  apply String.eqb_neq in Hne. now rewrite Hne.
Qed.

Lemma replaceShow_absent id updated wl :
  (forall show, In show wl -> Show.id show <> id) ->
  replaceShow id updated wl = wl.
Proof.
  intros H. unfold replaceShow. rewrite <- (map_id wl) at 2.
  apply map_ext_in. intros show Hin.
  apply H in Hin. apply String.eqb_neq in Hin. now rewrite Hin.
Qed.

Lemma replaceShow_frame id updated wl :
  frame id wl (replaceShow id updated wl).
Proof.
  split; [apply replaceShow_length|split].
  - intros i show. apply replaceShow_other.
  - apply replaceShow_absent.
Qed.

Lemma frame_refl id wl : frame id wl wl.
Proof. split; [reflexivity|split]; auto. Qed.

(** C9 -- Frame property of the targeted mutations: each of
    [toggleEpisodeWatched], [markSeasonWatched] and [markSeriesWatched]
    keeps the length of the watchlist, leaves every show whose
    identifier differs from the given one where and as it was, and
    leaves the whole watchlist unchanged when no tracked show has the
    given identifier. *)
Theorem targeted_mutations_frame (now : Z) (wl : Watchlist)
  (showId : string) :
  (forall episodeId,
      frame showId wl (toggleEpisodeWatched now wl showId episodeId)) /\
  (forall seasonNumber watched,
      frame showId wl
        (markSeasonWatched now wl showId seasonNumber watched)) /\
  (forall watched,
      frame showId wl (markSeriesWatched now wl showId watched)).
Proof.
  unfold toggleEpisodeWatched, markSeasonWatched, markSeriesWatched.
  repeat split; intros;
    destruct (findShow showId wl);
    first [apply replaceShow_length | reflexivity
          | eapply replaceShow_other; eassumption
          | apply replaceShow_absent; assumption
          | assumption | idtac].
Qed.

Lemma with_watch_same_but_watch ep w d :
  same_but_watch ep (Episode.with_watch ep w d).
Proof. destruct ep; reflexivity. Qed.

Lemma hasAired_aired now ep :
  hasAired now (Episode.airDate ep) = true <-> aired now ep.
Proof. apply hasAired_iff. Qed.

(** One episode under the callback of the bulk marking. *)
Lemma bulk_marked_callback now (inScope : Episode.t -> bool) watched ep :
  bulk_marked now inScope watched ep
    (if inScope ep then
       Episode.with_watch ep
         (if watched then hasAired now (Episode.airDate ep) else false)
         (if (if watched then hasAired now (Episode.airDate ep) else false)
          then Some (toISOString now) else None)
     else ep).
Proof.
  unfold bulk_marked. destruct (inScope ep); [|reflexivity].
  split; [apply with_watch_same_but_watch|split].
  - intros ->. simpl. apply hasAired_aired.
  - intros ->. reflexivity.
Qed.

Lemma markSeason_episodes_marked now seasonNumber watched episodes :
  Forall2
    (bulk_marked now (fun ep => Episode.season ep =? seasonNumber) watched)
    episodes (markSeason_episodes now seasonNumber watched episodes).
Proof.
  unfold markSeason_episodes.
  induction episodes as [|ep episodes IH]; simpl; constructor; [|exact IH].
  apply (bulk_marked_callback now
           (fun ep => Episode.season ep =? seasonNumber)).
Qed.

Lemma markSeries_episodes_marked now watched episodes :
  Forall2 (bulk_marked now (fun _ => true) watched)
    episodes (markSeries_episodes now watched episodes).
Proof.
  unfold markSeries_episodes.
  induction episodes as [|ep episodes IH]; simpl; constructor; [|exact IH].
  apply (bulk_marked_callback now (fun _ => true)).
Qed.

Lemma replaceShow_in id updated wl show :
  In show (replaceShow id updated wl) -> Show.id show = id ->
  Show.id updated = id -> show = updated.
Proof.
  unfold replaceShow. intros Hin Hid Hupd.
  apply in_map_iff in Hin. destruct Hin as [w [Heq Hin]].
  destruct (String.eqb_spec (Show.id w) id) as [_|Hne]; [now subst|].
  subst show. contradiction.
Qed.

Lemma replaceShow_has id updated wl current :
  In current wl -> Show.id current = id ->
  In updated (replaceShow id updated wl).
Proof.
  intros Hin Hid. unfold replaceShow. apply in_map_iff.
  exists current. split; [|assumption].
  rewrite <- Hid. now rewrite String.eqb_refl.
Qed.

(** C5 -- Aired-only bulk marking.  Let [current] be the tracked show
    with identifier [showId].  After [markSeasonWatched] (resp.
    [markSeriesWatched]) the watchlist holds a show with that
    identifier, and the episodes of every such show are those of
    [current], position by position, where an episode of the season
    (resp. any episode) is watched exactly when it has aired if the
    action marks watched, is unwatched if the action unmarks, and keeps
    its other fields, while the episodes of the other seasons are
    unchanged. *)
Theorem bulk_marking_aired_only (now : Z) (wl : Watchlist)
  (showId : string) (current : Show.t) :
  findShow showId wl = Some current ->
  (forall seasonNumber watched,
      (exists show,
          In show (markSeasonWatched now wl showId seasonNumber watched) /\
          Show.id show = showId) /\
      (forall show,
          In show (markSeasonWatched now wl showId seasonNumber watched) ->
          Show.id show = showId ->
          Forall2
            (bulk_marked now (fun ep => Episode.season ep =? seasonNumber)
               watched)
            (Show.episodes current) (Show.episodes show))) /\
  (forall watched,
      (exists show,
          In show (markSeriesWatched now wl showId watched) /\
          Show.id show = showId) /\
      (forall show,
          In show (markSeriesWatched now wl showId watched) ->
          Show.id show = showId ->
          Forall2 (bulk_marked now (fun _ => true) watched)
            (Show.episodes current) (Show.episodes show))).
Proof.
  intros Hfind. destruct (findShow_some _ _ _ Hfind) as [Hin Hid].
  unfold markSeasonWatched, markSeriesWatched. rewrite Hfind.
  split.
  - intros seasonNumber watched. split.
    + eexists. split; [eapply replaceShow_has; eassumption|exact Hid].
    + intros show Hshow Hsid.
      apply replaceShow_in in Hshow; [|assumption|exact Hid].
      subst show. simpl. apply markSeason_episodes_marked.
  - intros watched. split.
    + eexists. split; [eapply replaceShow_has; eassumption|exact Hid].
    + intros show Hshow Hsid.
      apply replaceShow_in in Hshow; [|assumption|exact Hid].
      subst show. simpl. apply markSeries_episodes_marked.
Qed.

End Watchlist.

(** ** Invariants of the watchlist *)

Section Invariants.
Context `{D : JsDate}.

Lemma all_watched_iff watchedCount total :
  all_watched watchedCount total = true <->
  (total > 0 /\ watchedCount = total).
Proof.
  unfold all_watched.
  rewrite andb_true_iff, Z.eqb_eq, Z.gtb_ltb, Z.ltb_lt. lia.
Qed.

Lemma aggregates_agree_invariant show :
  aggregates_agree show -> watched_invariant show.
Proof.
  intros [_ [_ Hw]]. unfold watched_invariant. rewrite Hw.
  rewrite <- all_watched_iff. split; [now intros [= ->]|now intros ->].
Qed.

Lemma aggregates_agree_empty show :
  aggregates_agree show -> Show.episodes show = [] ->
  Show.watched show = Some false.
Proof.
  intros [Ht [_ Hw]] Hnil. rewrite Hw, Ht, Hnil. simpl.
  unfold all_watched. now rewrite andb_false_r.
Qed.

Lemma refreshShow_agrees now fresh show :
  aggregates_agree (refreshShow now fresh show).
Proof. repeat split. Qed.

Lemma newItem_agrees now item : aggregates_agree (newItem now item).
Proof. repeat split. Qed.

(** The hand-written recomputation keeps the stored [totalEpisodes]; it
    agrees with the new episodes when they are as many as the old. *)
Lemma withEpisodes_agrees now current updatedEpisodes watchedDate :
  aggregates_agree current ->
  List.length updatedEpisodes = List.length (Show.episodes current) ->
  aggregates_agree (withEpisodes now current updatedEpisodes watchedDate).
Proof.
  intros [Ht _] Hlen. unfold aggregates_agree. simpl.
  rewrite Ht, Hlen. repeat split.
Qed.

Lemma toggleExpanded_agrees seasonNumber show :
  aggregates_agree show -> aggregates_agree (toggleExpanded seasonNumber show).
Proof. intros H. exact H. Qed.

Lemma Forall_replaceShow (P : Show.t -> Prop) id updated wl :
  Forall P wl -> P updated -> Forall P (replaceShow id updated wl).
Proof.
  intros Hwl Hupd. unfold replaceShow. apply Forall_map.
  apply Forall_impl with (2 := Hwl). intros w Hw.
  now destruct (Show.id w =? id)%string.
Qed.

Lemma Forall_applyUpdates (P : Show.t -> Prop) updates wl :
  Forall P updates -> Forall P wl -> Forall P (applyUpdates updates wl).
Proof.
  intros Hupd Hwl. unfold applyUpdates. apply Forall_map.
  apply Forall_impl with (2 := Hwl). intros show Hshow.
  destruct (find _ updates) as [u|] eqn:Hfind; [|assumption].
  apply find_some in Hfind. destruct Hfind as [Hin _].
  rewrite Forall_forall in Hupd. now apply Hupd.
Qed.

Lemma refreshOrKeep_agrees now source show :
  aggregates_agree show -> aggregates_agree (refreshOrKeep now source show).
Proof.
  intros Hshow. unfold refreshOrKeep, updateShowWithEpisodes.
  destruct (fetchEpisodeList _); simpl; [apply refreshShow_agrees|assumption].
Qed.

Lemma in_firstn {A : Type} n (l : list A) x : In x (firstn n l) -> In x l.
Proof.
  intros H. rewrite <- (firstn_skipn n l). apply in_or_app. now left.
Qed.

Lemma in_skipn {A : Type} n (l : list A) x : In x (skipn n l) -> In x l.
Proof.
  intros H. rewrite <- (firstn_skipn n l). apply in_or_app. now right.
Qed.

Lemma Forall_firstn_skipn {A : Type} (P : A -> Prop) n i (l : list A) :
  Forall P l -> Forall P (firstn n (skipn i l)).
Proof.
  intros H. rewrite Forall_forall in *. intros x Hin.
  apply H. apply (in_skipn i). apply (in_firstn n). exact Hin.
Qed.

Lemma daily_batches_agree fuel now source showsToUpdate i wl :
  Forall aggregates_agree showsToUpdate ->
  Forall aggregates_agree wl ->
  Forall aggregates_agree
    (daily_batches fuel now source showsToUpdate i wl).
Proof.
  intros Hshows. revert i wl.
  induction fuel as [|fuel IH]; intros i wl Hwl; cbn [daily_batches];
    [assumption|].
  destruct (i <? List.length showsToUpdate)%nat; [|assumption].
  apply IH. apply Forall_applyUpdates; [|assumption].
  apply Forall_map.
  apply Forall_impl with (P := aggregates_agree).
  - intros show. apply refreshOrKeep_agrees.
  - now apply Forall_firstn_skipn.
Qed.

(** The loop of the daily refresh ends before its fuel does: more fuel
    does not change the state it leaves. *)
Lemma daily_batches_fuel fuel now source showsToUpdate i wl :
  (List.length showsToUpdate <= i + fuel)%nat ->
  daily_batches (S fuel) now source showsToUpdate i wl =
  daily_batches fuel now source showsToUpdate i wl.
Proof.
  revert i wl. induction fuel as [|fuel IH]; intros i wl Hlen.
  - cbn [daily_batches].
    destruct (Nat.ltb_spec i (List.length showsToUpdate)); [lia|reflexivity].
  - change (daily_batches (S (S fuel)) now source showsToUpdate i wl)
      with (if (i <? List.length showsToUpdate)%nat
            then daily_batches (S fuel) now source showsToUpdate
                   (i + batchSize)
                   (applyUpdates
                      (map (refreshOrKeep now source)
                         (firstn batchSize (skipn i showsToUpdate))) wl)
            else wl).
    change (daily_batches (S fuel) now source showsToUpdate i wl)
      with (if (i <? List.length showsToUpdate)%nat
            then daily_batches fuel now source showsToUpdate
                   (i + batchSize)
                   (applyUpdates
                      (map (refreshOrKeep now source)
                         (firstn batchSize (skipn i showsToUpdate))) wl)
            else wl).
    destruct (i <? List.length showsToUpdate)%nat; [|reflexivity].
    apply IH. unfold batchSize. lia.
Qed.

Lemma daily_batches_more_fuel extra now source showsToUpdate wl :
  daily_batches (List.length showsToUpdate + extra) now source
    showsToUpdate 0 wl =
  daily_batches (List.length showsToUpdate) now source showsToUpdate 0 wl.
Proof.
  induction extra as [|extra IH].
  - now rewrite Nat.add_0_r.
  - rewrite Nat.add_succ_r, daily_batches_fuel by lia. exact IH.
Qed.

Lemma Forall_filter {A : Type} (P : A -> Prop) (p : A -> bool) (l : list A) :
  Forall P l -> Forall P (filter p l).
Proof.
  intros H. rewrite Forall_forall in *. intros x Hin.
  apply filter_In in Hin. now apply H.
Qed.

Lemma updateShowsDaily_agrees now source wl :
  Forall aggregates_agree wl ->
  Forall aggregates_agree (updateShowsDaily now source wl).
Proof.
  intros Hwl. unfold updateShowsDaily.
  destruct (List.length wl =? 0)%nat; [assumption|].
  destruct (List.length (filter _ wl) =? 0)%nat; [assumption|].
  apply daily_batches_agree; [now apply Forall_filter|assumption].
Qed.

Lemma addToWatchlist_loaded_agrees now now' source wl item :
  Forall aggregates_agree wl ->
  Forall aggregates_agree (addToWatchlist_loaded now now' source wl item).
Proof.
  intros Hwl. unfold addToWatchlist_loaded, updateShowWithEpisodes.
  destruct (fetchEpisodeList _); simpl; [|assumption].
  apply Forall_replaceShow; [assumption|apply refreshShow_agrees].
Qed.

Lemma Forall_snoc {A : Type} (P : A -> Prop) (l : list A) (x : A) :
  Forall P l -> P x -> Forall P (l ++ [x]).
Proof.
  intros Hl Hx. apply Forall_app. split; [assumption|].
  constructor; [assumption|constructor].
Qed.

Lemma findShow_agrees id wl show :
  Forall aggregates_agree wl -> findShow id wl = Some show ->
  aggregates_agree show.
Proof.
  intros Hwl Hfind. apply findShow_some in Hfind.
  rewrite Forall_forall in Hwl. now apply Hwl.
Qed.

Lemma markSeriesWatched_agrees now wl showId watched :
  Forall aggregates_agree wl ->
  Forall aggregates_agree (markSeriesWatched now wl showId watched).
Proof.
  intros Hwl. unfold markSeriesWatched.
  destruct (findShow showId wl) as [current|] eqn:Hfind; [|assumption].
  apply Forall_replaceShow; [assumption|].
  apply withEpisodes_agrees; [eapply findShow_agrees; eassumption|].
  apply length_map.
Qed.

Lemma toggleEpisodeWatched_agrees now wl showId episodeId :
  Forall aggregates_agree wl ->
  Forall aggregates_agree (toggleEpisodeWatched now wl showId episodeId).
Proof.
  intros Hwl. unfold toggleEpisodeWatched.
  destruct (findShow showId wl) as [current|] eqn:Hfind; [|assumption].
  apply Forall_replaceShow; [assumption|].
  apply withEpisodes_agrees; [eapply findShow_agrees; eassumption|].
  apply length_map.
Qed.

Lemma markSeasonWatched_agrees now wl showId seasonNumber watched :
  Forall aggregates_agree wl ->
  Forall aggregates_agree
    (markSeasonWatched now wl showId seasonNumber watched).
Proof.
  intros Hwl. unfold markSeasonWatched.
  destruct (findShow showId wl) as [current|] eqn:Hfind; [|assumption].
  apply Forall_replaceShow; [assumption|].
  apply withEpisodes_agrees; [eapply findShow_agrees; eassumption|].
  apply length_map.
Qed.

Lemma step_agrees wl wl' :
  step wl wl' -> Forall aggregates_agree wl -> Forall aggregates_agree wl'.
Proof.
  intros Hstep Hwl. destruct Hstep.
  - unfold addToWatchlist. destruct (findShow _ wl); [assumption|].
    apply addToWatchlist_loaded_agrees.
    apply Forall_snoc; [assumption|apply newItem_agrees].
  - unfold addToWatchlist_pending. destruct (findShow _ wl); [assumption|].
    apply Forall_snoc; [assumption|apply newItem_agrees].
  - now apply addToWatchlist_loaded_agrees.
  - now apply Forall_filter.
  - now apply markSeriesWatched_agrees.
  - now apply markSeriesWatched_agrees.
  - now apply toggleEpisodeWatched_agrees.
  - now apply markSeasonWatched_agrees.
  - unfold toggleSeasonExpansion. apply Forall_map.
    apply Forall_impl with (2 := Hwl). intros show Hshow.
    now destruct (Show.id show =? showId)%string.
  - now apply updateShowsDaily_agrees.
Qed.

Lemma reachable_agrees wl :
  reachable wl -> Forall aggregates_agree wl.
Proof.
  induction 1 as [|wl wl' _ IH Hstep]; [constructor|].
  now apply (step_agrees wl).
Qed.

(** C4 -- Watched-flag invariant: a show refreshed through
    [updateShowWithEpisodes], whatever it was before, and every show of
    every state of the watchlist that the operations of the application
    lead to (adding a show, the refreshes, toggling an episode, marking
    a season or the series, and the others) has [watched == true]
    exactly when [totalEpisodes > 0] and
    [watchedEpisodesCount == totalEpisodes]; a show without episodes is
    not watched. *)
Theorem watched_flag_invariant (wl : Watchlist) (show : Show.t) :
  (forall now fresh, watched_invariant (refreshShow now fresh show)) /\
  (reachable wl -> In show wl ->
   watched_invariant show /\
   (Show.episodes show = [] -> Show.watched show = Some false)).
Proof.
  split.
  - intros now fresh. apply aggregates_agree_invariant, refreshShow_agrees.
  - intros Hreach Hin. apply reachable_agrees in Hreach.
    rewrite Forall_forall in Hreach. specialize (Hreach show Hin).
    split.
    + now apply aggregates_agree_invariant.
    + now apply aggregates_agree_empty.
Qed.

(** The three watched-setting operations leave [totalEpisodes] as it
    is stored. *)
Lemma withEpisodes_keeps_total now current updatedEpisodes watchedDate :
  Show.totalEpisodes (withEpisodes now current updatedEpisodes watchedDate) =
  Show.totalEpisodes current.
Proof. reflexivity. Qed.

(** *** Identifiers *)

Lemma replaceShow_ids id updated wl :
  Show.id updated = id -> ids (replaceShow id updated wl) = ids wl.
Proof.
  intros Hid. unfold ids, replaceShow. rewrite map_map.
  apply map_ext. intros w.
  destruct (String.eqb_spec (Show.id w) id) as [Heq|_]; [|reflexivity].
  now rewrite Heq.
Qed.

Lemma applyUpdates_ids updates wl : ids (applyUpdates updates wl) = ids wl.
Proof.
  unfold ids, applyUpdates. rewrite map_map. apply map_ext. intros show.
  destruct (find _ updates) as [u|] eqn:Hfind; [|reflexivity].
  apply find_some in Hfind. destruct Hfind as [_ Heq].
  now apply String.eqb_eq.
Qed.

Lemma daily_batches_ids fuel now source showsToUpdate i wl :
  ids (daily_batches fuel now source showsToUpdate i wl) = ids wl.
Proof.
  revert i wl.
  induction fuel as [|fuel IH]; intros i wl; cbn [daily_batches];
    [reflexivity|].
  destruct (i <? List.length showsToUpdate)%nat; [|reflexivity].
  rewrite IH. apply applyUpdates_ids.
Qed.

Lemma updateShowsDaily_ids now source wl :
  ids (updateShowsDaily now source wl) = ids wl.
Proof.
  unfold updateShowsDaily.
  destruct (List.length wl =? 0)%nat; [reflexivity|].
  destruct (List.length (filter _ wl) =? 0)%nat; [reflexivity|].
  apply daily_batches_ids.
Qed.

Lemma addToWatchlist_loaded_ids now now' source wl item :
  ids (addToWatchlist_loaded now now' source wl item) = ids wl.
Proof.
  unfold addToWatchlist_loaded, updateShowWithEpisodes.
  destruct (fetchEpisodeList _); simpl; [|reflexivity].
  now apply replaceShow_ids.
Qed.

Lemma markSeriesWatched_ids now wl showId watched :
  ids (markSeriesWatched now wl showId watched) = ids wl.
Proof.
  unfold markSeriesWatched.
  destruct (findShow showId wl) as [current|] eqn:Hfind; [|reflexivity].
  apply replaceShow_ids. simpl. now apply findShow_some in Hfind.
Qed.

Lemma toggleEpisodeWatched_ids now wl showId episodeId :
  ids (toggleEpisodeWatched now wl showId episodeId) = ids wl.
Proof.
  unfold toggleEpisodeWatched.
  destruct (findShow showId wl) as [current|] eqn:Hfind; [|reflexivity].
  apply replaceShow_ids. simpl. now apply findShow_some in Hfind.
Qed.

Lemma markSeasonWatched_ids now wl showId seasonNumber watched :
  ids (markSeasonWatched now wl showId seasonNumber watched) = ids wl.
Proof.
  unfold markSeasonWatched.
  destruct (findShow showId wl) as [current|] eqn:Hfind; [|reflexivity].
  apply replaceShow_ids. simpl. now apply findShow_some in Hfind.
Qed.

Lemma toggleSeasonExpansion_ids wl showId seasonNumber :
  ids (toggleSeasonExpansion wl showId seasonNumber) = ids wl.
Proof.
  unfold ids, toggleSeasonExpansion. rewrite map_map. apply map_ext.
  intros show. now destruct (Show.id show =? showId)%string.
Qed.

Lemma NoDup_ids_filter (p : Show.t -> bool) wl :
  NoDup (ids wl) -> NoDup (ids (filter p wl)).
Proof.
  unfold ids. induction wl as [|w wl IH]; simpl; intros Hnd; [constructor|].
  inversion Hnd as [|x xs Hnotin Hnd']; subst.
  destruct (p w); simpl; [|now apply IH].
  constructor; [|now apply IH].
  intros Hin. apply Hnotin. apply in_map_iff in Hin.
  destruct Hin as [w' [Heq Hin]]. apply filter_In in Hin.
  apply in_map_iff. exists w'. now split.
Qed.

Lemma NoDup_ids_snoc wl show :
  NoDup (ids wl) -> ~ In (Show.id show) (ids wl) ->
  NoDup (ids (wl ++ [show])).
Proof.
  intros Hnd Hnotin. unfold ids. rewrite map_app. simpl.
  apply NoDup_app; [assumption|repeat constructor; intros []|].
  intros x Hx [<-|[]]. contradiction.
Qed.

Lemma findShow_none_ids id wl :
  findShow id wl = None -> ~ In id (ids wl).
Proof.
  intros Hfind Hin. unfold ids in Hin. apply in_map_iff in Hin.
  destruct Hin as [show [Heq Hin]].
  rewrite findShow_none in Hfind. now apply (Hfind show).
Qed.

Lemma findShow_present id wl :
  In id (ids wl) -> exists show, findShow id wl = Some show.
Proof.
  intros Hin. destruct (findShow id wl) as [show|] eqn:Hfind.
  - now exists show.
  - exfalso. now apply (findShow_none_ids id wl).
Qed.

Lemma step_ids wl wl' :
  step wl wl' -> NoDup (ids wl) -> NoDup (ids wl').
Proof.
  intros Hstep Hnd. destruct Hstep.
  - unfold addToWatchlist.
    destruct (findShow _ wl) eqn:Hfind; [assumption|].
    rewrite addToWatchlist_loaded_ids.
    apply NoDup_ids_snoc; [assumption|].
    now apply findShow_none_ids.
  - unfold addToWatchlist_pending.
    destruct (findShow _ wl) eqn:Hfind; [assumption|].
    apply NoDup_ids_snoc; [assumption|].
    now apply findShow_none_ids.
  - now rewrite addToWatchlist_loaded_ids.
  - now apply NoDup_ids_filter.
  - now rewrite markSeriesWatched_ids.
  - unfold markAsWatched. now rewrite markSeriesWatched_ids.
  - now rewrite toggleEpisodeWatched_ids.
  - now rewrite markSeasonWatched_ids.
  - now rewrite toggleSeasonExpansion_ids.
  - now rewrite updateShowsDaily_ids.
Qed.

(** C10 -- Identifier uniqueness of the tracked list: in every state of
    the watchlist reachable through the operations no two tracked shows
    share an identifier; [addToWatchlist] with an item whose identifier
    is that of a tracked show leaves the watchlist unchanged; and the
    operations that neither add nor remove a show (the refreshes, the
    watched-setting operations, the expansion toggle) keep the list of
    identifiers as it is, position by position. *)
Theorem identifiers_unique (wl : Watchlist) :
  reachable wl ->
  NoDup (ids wl) /\
  (forall now now' source item,
      In (Show.id item) (ids wl) ->
      addToWatchlist now now' source wl item = wl) /\
  (forall now now' source item showId episodeId seasonNumber watched,
      ids (addToWatchlist_loaded now now' source wl item) = ids wl /\
      ids (updateShowsDaily now source wl) = ids wl /\
      ids (toggleEpisodeWatched now wl showId episodeId) = ids wl /\
      ids (markSeasonWatched now wl showId seasonNumber watched) = ids wl /\
      ids (markSeriesWatched now wl showId watched) = ids wl /\
      ids (markAsWatched now wl showId) = ids wl /\
      ids (toggleSeasonExpansion wl showId seasonNumber) = ids wl).
Proof.
  intros Hreach. split; [|split].
  - induction Hreach as [|wl wl' _ IH Hstep]; [constructor|].
    now apply (step_ids wl).
  - intros now now' source item Hin.
    destruct (findShow_present _ _ Hin) as [show Hfind].
    unfold addToWatchlist. now rewrite Hfind.
  - intros. repeat split.
    + apply addToWatchlist_loaded_ids.
    + apply updateShowsDaily_ids.
    + apply toggleEpisodeWatched_ids.
    + apply markSeasonWatched_ids.
    + apply markSeriesWatched_ids.
    + apply markSeriesWatched_ids.
    + apply toggleSeasonExpansion_ids.
Qed.

End Invariants.

(** ** The episode source *)

Section EpisodeSource.

(** Whatever the request does, the frontend fetch answers a list. *)
Lemma fetchEpisodeList_returns (o : FetchOutcome) :
  exists episodes, fetchEpisodeList o = Return episodes.
Proof.
  destruct o as [|status [| |eps]]; simpl; eexists; reflexivity.
Qed.

Lemma fetchEpisodesFromTvmaze_returns (o : FetchOutcome) :
  exists episodes, Backend.fetchEpisodesFromTvmaze o = Return episodes.
Proof.
  destruct o as [|status [| |eps]]; unfold Backend.fetchEpisodesFromTvmaze;
    simpl; try (eexists; reflexivity);
    destruct (response_ok status); simpl; eexists; reflexivity.
Qed.

Lemma fetchEpisodesFromTvmaze_failed (o : FetchOutcome) :
  request_failed o -> Backend.fetchEpisodesFromTvmaze o = Return [].
Proof.
  destruct o as [|status body]; simpl; [reflexivity|].
  intros Hfail. unfold Backend.fetchEpisodesFromTvmaze. simpl.
  now rewrite Hfail.
Qed.

(** C7, as the code has it -- Episode-source failures: for every outcome
    of the request neither episode-fetch operation throws.  A request
    that does not connect is answered by the empty list, and so is, in
    the backend's [fetchEpisodesFromTvmaze], a response whose status is
    not OK; a show with no published episodes is answered by the empty
    list too, so the caller cannot tell the two apart. *)
Theorem fetch_failure_is_empty_list (o : FetchOutcome) :
  (exists episodes, fetchEpisodeList o = Return episodes) /\
  (exists episodes, Backend.fetchEpisodesFromTvmaze o = Return episodes) /\
  (o = NetworkError -> fetchEpisodeList o = Return []) /\
  (request_failed o -> Backend.fetchEpisodesFromTvmaze o = Return []) /\
  (forall status,
      response_ok status = true ->
      o = Response status (EpisodeArray []) ->
      fetchEpisodeList o = Return [] /\
      Backend.fetchEpisodesFromTvmaze o = Return []).
Proof.
  split; [apply fetchEpisodeList_returns|].
  split; [apply fetchEpisodesFromTvmaze_returns|].
  split; [now intros ->|]. split.
  - apply fetchEpisodesFromTvmaze_failed.
  - intros status Hok ->. split; [reflexivity|].
    unfold Backend.fetchEpisodesFromTvmaze. simpl. now rewrite Hok.
Qed.

End EpisodeSource.

(** C7, as the specification states it, fails for both fetch operations:
    a request that does not connect is answered by [Return []], not by an
    error. *)
Lemma fetch_does_not_distinguish_failure :
  ~ distinguishes_failure fetchEpisodeList /\
  ~ distinguishes_failure Backend.fetchEpisodesFromTvmaze.
Proof.
  split; intros H; destruct (H NetworkError) as [Hthrow _];
    destruct (Hthrow I) as [err Herr]; discriminate Herr.
Qed.

Lemma fetch_failure_is_empty_list_witness :
  fetchEpisodeList NetworkError = Return [] /\
  Backend.fetchEpisodesFromTvmaze (Response 503 NotAnArray) = Return [] /\
  fetchEpisodeList (Response 200 (EpisodeArray [])) = Return [].
Proof.
  split; [|split].
  - apply (fetch_failure_is_empty_list NetworkError). reflexivity.
  - apply (fetch_failure_is_empty_list (Response 503 NotAnArray)).
    reflexivity.
  - apply (fetch_failure_is_empty_list (Response 200 (EpisodeArray [])) )
      with (status := 200); reflexivity.
Defined.

(** ** The batch refresh *)

Section BatchRefresh.
Context `{D : JsDate}.

(** [updateShowWithEpisodes] does not throw: the [catch] of the daily
    refresh, which would keep the show as it was, is never entered. *)
Lemma updateShowWithEpisodes_returns now source show :
  exists fresh,
    fetchEpisodeList (source (Show.tvmazeId show)) = Return fresh /\
    updateShowWithEpisodes now source show =
    Return (refreshShow now fresh show).
Proof.
  destruct (fetchEpisodeList_returns (source (Show.tvmazeId show)))
    as [fresh Hfresh].
  exists fresh. split; [assumption|].
  unfold updateShowWithEpisodes. now rewrite Hfresh.
Qed.

(** A show whose request does not connect is refreshed with no episode
    at all. *)
Lemma refreshOrKeep_failed_fetch now source show :
  source (Show.tvmazeId show) = NetworkError ->
  Show.episodes (refreshOrKeep now source show) = [] /\
  Show.totalEpisodes (refreshOrKeep now source show) = 0 /\
  Show.watchedEpisodesCount (refreshOrKeep now source show) = 0.
Proof.
  intros Hfail. unfold refreshOrKeep, updateShowWithEpisodes.
  rewrite Hfail. repeat split.
Qed.

End BatchRefresh.

(** In the backend a single show is counted as updated whenever
    [updateSingleShow] returns, which it does, leaving the database as it
    was, when the fetch answers the empty list. *)
Lemma updateSingleShow_failed_fetch now source showId tvmazeId title db :
  request_failed (source tvmazeId) ->
  Backend.updateSingleShow now source showId tvmazeId title db =
  (Return tt, db).
Proof.
  intros Hfail. unfold Backend.updateSingleShow, Backend.tryM, Backend.bindM,
    Backend.lift.
  now rewrite (fetchEpisodesFromTvmaze_failed _ Hfail).
Qed.




(** C6 at the failing input -- five stale shows, the request for show 3
    not connecting, on 1 March 2024.  In the frontend ([updateShowsDaily])
    shows 1, 2, 4 and 5 hold the two fresh episodes with the watched one
    still watched, and show 3, which had one watched episode, is left
    with no episode, zero counts and a fresh [lastUpdated].  In the
    backend ([updateAllShowsEpisodes]) the answer is 5 updated and 0
    errors, the row of show 3 being as before. *)
Theorem batch_refresh_failed_fetch :
  map (fun show => (Show.id show,
                    map Episode.watched (Show.episodes show),
                    Show.totalEpisodes show, Show.lastUpdated show))
    Sample.five_stale_shows =
  [("tvmaze-1", [true], 1, Some "2024-01-10T00:00:00.000Z");
   ("tvmaze-2", [true], 1, Some "2024-01-10T00:00:00.000Z");
   ("tvmaze-3", [true], 1, Some "2024-01-10T00:00:00.000Z");
   ("tvmaze-4", [true], 1, Some "2024-01-10T00:00:00.000Z");
   ("tvmaze-5", [true], 1, Some "2024-01-10T00:00:00.000Z")]%string /\
  map (fun show => (Show.id show,
                    map Episode.watched (Show.episodes show),
                    Show.totalEpisodes show, Show.lastUpdated show))
    (updateShowsDaily Sample.march_2024 Sample.source
       Sample.five_stale_shows) =
  [("tvmaze-1", [true; false], 2, Some "2024-03-01T00:00:00.000Z");
   ("tvmaze-2", [true; false], 2, Some "2024-03-01T00:00:00.000Z");
   ("tvmaze-3", [], 0, Some "2024-03-01T00:00:00.000Z");
   ("tvmaze-4", [true; false], 2, Some "2024-03-01T00:00:00.000Z");
   ("tvmaze-5", [true; false], 2, Some "2024-03-01T00:00:00.000Z")]%string /\
  fst (Backend.updateAllShowsEpisodes Sample.march_2024 Sample.source
         Sample.five_stale_rows) = Return (5, 0) /\
  map (fun row => (Backend.show_id row, Backend.show_totalEpisodes row,
                   Backend.show_lastApiUpdate row))
    (Backend.shows
       (snd (Backend.updateAllShowsEpisodes Sample.march_2024 Sample.source
               Sample.five_stale_rows))) =
  [("show-1", 2, 1709251200000); ("show-2", 2, 1709251200000);
   ("show-3", 1, 1704844800000); ("show-4", 2, 1709251200000);
   ("show-5", 2, 1709251200000)]%string.
Proof. repeat split; vm_compute; reflexivity. Qed.

(** ** Season aggregation *)

Section Sorting.
Context {A : Type} (key : A -> Z).

Lemma sort_insert_perm (c : A -> A -> Z) (x : A) (l : list A) :
  Permutation (Js.sort_insert c x l) (x :: l).
Proof.
  induction l as [|y l IH]; simpl; [reflexivity|].
  destruct (c x y <=? 0); [reflexivity|].
  rewrite IH. apply perm_swap.
Qed.

Lemma sort_perm (c : A -> A -> Z) (l : list A) :
  Permutation (Js.sort c l) l.
Proof.
  induction l as [|x l IH]; simpl; [reflexivity|].
  rewrite sort_insert_perm. now constructor.
Qed.

Lemma sort_insert_sorted (x : A) (l : list A) :
  StronglySorted (fun a b => key a <= key b) l ->
  StronglySorted (fun a b => key a <= key b) (Js.sort_insert (fun a b => key a - key b) x l).
Proof.
  induction l as [|y l IH]; simpl; intros Hs.
  - repeat constructor.
  - apply StronglySorted_inv in Hs. destruct Hs as [Hl Hy].
    destruct (Z.leb_spec (key x - key y) 0) as [Hle|Hgt].
    + constructor; [constructor; assumption|].
      constructor; [simpl; lia|].
      apply Forall_impl with (2 := Hy). simpl. intros a Ha. lia.
    + constructor; [now apply IH|].
      apply (Permutation_Forall
               (Permutation_sym (sort_insert_perm (fun a b => key a - key b) x l))).
      constructor; [simpl; lia|assumption].
Qed.

Lemma sort_sorted (l : list A) : StronglySorted (fun a b => key a <= key b) (Js.sort (fun a b => key a - key b) l).
Proof.
  induction l as [|x l IH]; simpl; [constructor|].
  now apply sort_insert_sorted.
Qed.

(** A list sorted by a key without repetition ascends strictly. *)
Lemma sorted_nodup_strict (l : list A) :
  StronglySorted (fun a b => key a <= key b) l -> NoDup (map key l) ->
  StronglySorted Z.lt (map key l).
Proof.
  induction l as [|x l IH]; simpl; intros Hs Hnd; [constructor|].
  apply StronglySorted_inv in Hs. destruct Hs as [Hl Hx].
  inversion Hnd as [|k ks Hnotin Hnd']; subst.
  constructor; [now apply IH|].
  apply Forall_forall. intros k Hk.
  apply in_map_iff in Hk. destruct Hk as [y [<- Hy]].
  rewrite Forall_forall in Hx. specialize (Hx y Hy). simpl in Hx.
  assert (key x <> key y).
  { intros Heq. apply Hnotin. rewrite Heq. now apply in_map. }
  lia.
Qed.

End Sorting.

Section MapFacts.
Context {V : Type}.
Implicit Types (m : Js.Map.t V) (k : Z) (v : V).

Lemma get_set_same m k v : Js.Map.get (Js.Map.set m k v) k = Some v.
Proof.
  induction m as [|[k' v'] m IH]; simpl.
  - now rewrite Z.eqb_refl.
  - destruct (Z.eqb_spec k' k) as [->|Hne]; simpl.
    + now rewrite Z.eqb_refl.
    + destruct (Z.eqb_spec k' k); [contradiction|exact IH].
Qed.

Lemma get_set_other m k k' v :
  k' <> k -> Js.Map.get (Js.Map.set m k v) k' = Js.Map.get m k'.
Proof.
  intros Hne. induction m as [|[k0 v0] m IH]; simpl.
  - destruct (Z.eqb_spec k k'); [congruence|reflexivity].
  - destruct (Z.eqb_spec k0 k) as [->|Hne0]; simpl.
    + destruct (Z.eqb_spec k k'); [congruence|reflexivity].
    + now rewrite IH.
Qed.

Lemma get_none_keys m k :
  Js.Map.get m k = None <-> ~ In k (map fst m).
Proof.
  induction m as [|[k' v'] m IH]; simpl.
  - split; [intros _ []|reflexivity].
  - destruct (Z.eqb_spec k' k) as [->|Hne].
    + split; [discriminate|]. intros H. exfalso. apply H. now left.
    + rewrite IH. split.
      * intros H [Heq|Hin]; [contradiction|now apply H].
      * intros H Hin. apply H. now right.
Qed.

Lemma keys_set_present m k v v0 :
  Js.Map.get m k = Some v0 -> map fst (Js.Map.set m k v) = map fst m.
Proof.
  induction m as [|[k' v'] m IH]; simpl; [discriminate|].
  destruct (Z.eqb_spec k' k) as [->|Hne]; simpl; [reflexivity|].
  intros H. now rewrite IH.
Qed.

Lemma keys_set_absent m k v :
  Js.Map.get m k = None -> map fst (Js.Map.set m k v) = map fst m ++ [k].
Proof.
  induction m as [|[k' v'] m IH]; simpl; [reflexivity|].
  destruct (Z.eqb_spec k' k) as [->|Hne]; simpl; [discriminate|].
  intros H. now rewrite IH.
Qed.

(** With one entry per key, [get] lists the entries. *)
Lemma in_get m k v :
  NoDup (map fst m) -> (In (k, v) m <-> Js.Map.get m k = Some v).
Proof.
  induction m as [|[k' v'] m IH]; simpl; intros Hnd.
  - split; [intros []|discriminate].
  - inversion Hnd as [|x xs Hnotin Hnd']; subst.
    destruct (Z.eqb_spec k' k) as [->|Hne].
    + split.
      * intros [[= ->]|Hin]; [reflexivity|].
        exfalso. apply Hnotin. apply in_map_iff. now exists (k, v).
      * intros [= ->]. now left.
    + rewrite <- (IH Hnd'). split.
      * intros [[= -> _]|Hin]; [contradiction|assumption].
      * intros Hin. now right.
Qed.

End MapFacts.

Section Grouping.

(** The bucket that the episodes processed so far fill for season [k]. *)
Lemma filter_snoc {A : Type} (p : A -> bool) (l : list A) (x : A) :
  filter p (l ++ [x]) = filter p l ++ (if p x then [x] else []).
Proof. rewrite filter_app. reflexivity. Qed.

Lemma groups_empty : groups [] [].
Proof. split; [constructor|reflexivity]. Qed.

Lemma seasonMap_add_groups m done episode :
  groups m done -> groups (seasonMap_add m episode) (done ++ [episode]).
Proof.
  intros [Hnd Hget]. unfold seasonMap_add, Js.Map.has.
  set (n := Episode.season episode).
  pose proof (Hget n) as Hn.
  destruct (Js.Map.get m n) as [bucket|] eqn:Hmn; simpl.
  - rewrite Hmn. split.
    + now rewrite (keys_set_present m n _ bucket).
    + intros k. unfold episodes_of_season. rewrite filter_snoc.
      fold (episodes_of_season k done).
      destruct (Z.eqb_spec (Episode.season episode) k) as [Heq|Hne].
      * subst k. fold n. rewrite get_set_same.
        destruct (episodes_of_season n done) as [|e l]; [discriminate|].
        injection Hn as ->. reflexivity.
      * rewrite get_set_other by (fold n in Hne; congruence).
        rewrite app_nil_r. apply Hget.
  - rewrite get_set_same. split.
    + rewrite (keys_set_present _ n _ []) by apply get_set_same.
      rewrite keys_set_absent by assumption.
      apply NoDup_app; [assumption|repeat constructor; intros []|].
      intros x Hx [<-|[]]. now apply get_none_keys in Hmn.
    + intros k. unfold episodes_of_season. rewrite filter_snoc.
      fold (episodes_of_season k done).
      destruct (Z.eqb_spec (Episode.season episode) k) as [Heq|Hne].
      * subst k. fold n. rewrite get_set_same.
        destruct (episodes_of_season n done) as [|e l]; [|discriminate].
        reflexivity.
      * rewrite !get_set_other by (fold n in Hne; congruence).
        rewrite app_nil_r. apply Hget.
Qed.

Lemma fold_seasonMap_add_groups rest m done :
  groups m done -> groups (fold_left seasonMap_add rest m) (done ++ rest).
Proof.
  revert m done. induction rest as [|episode rest IH]; intros m done H; simpl.
  - now rewrite app_nil_r.
  - replace (done ++ episode :: rest) with ((done ++ [episode]) ++ rest)
      by now rewrite <- app_assoc.
    apply IH. now apply seasonMap_add_groups.
Qed.

Lemma seasonMap_groups episodes :
  groups (fold_left seasonMap_add episodes []) episodes.
Proof. apply (fold_seasonMap_add_groups episodes [] []), groups_empty. Qed.

(** The entries of the map are the non-empty [episodes_of_season]. *)
Lemma groups_entry m done k bucket :
  groups m done ->
  (In (k, bucket) m <->
   bucket = episodes_of_season k done /\ bucket <> []).
Proof.
  intros [Hnd Hget]. rewrite (in_get m k bucket Hnd), Hget.
  destruct (episodes_of_season k done) as [|e l]; split.
  - discriminate.
  - intros [-> H]. contradiction.
  - intros [= <-]. split; [reflexivity|discriminate].
  - intros [-> _]. reflexivity.
Qed.

Lemma season_of_entry_number entry :
  Season.number (season_of_entry entry) = fst entry.
Proof. now destruct entry. Qed.

(** C8, as the code has it -- Season aggregation: for every episode
    list, in any order, [organizeEpisodesIntoSeasons] answers seasons in
    strictly ascending order of season number; each season holds exactly
    the input episodes whose season number is its own (at least one),
    ordered by episode number ascending, with [totalEpisodes] their
    number and [watchedEpisodes] the number of the watched ones; and no
    episode is dropped: whatever its season number, valid or not, an
    episode is in the season that bears that number. *)
Theorem seasons_grouped_and_ordered (episodes : list Episode.t) :
  StronglySorted Z.lt
    (map Season.number (organizeEpisodesIntoSeasons episodes)) /\
  (forall s,
      In s (organizeEpisodesIntoSeasons episodes) ->
      episodes_of_season (Season.number s) episodes <> [] /\
      Permutation (Season.episodes s)
        (episodes_of_season (Season.number s) episodes) /\
      StronglySorted (fun a b => Episode.episode a <= Episode.episode b)
        (Season.episodes s) /\
      Season.totalEpisodes s =
      Z.of_nat (List.length (episodes_of_season (Season.number s) episodes)) /\
      Season.watchedEpisodes s =
      count_watched (episodes_of_season (Season.number s) episodes)) /\
  (forall ep,
      In ep episodes ->
      exists s,
        In s (organizeEpisodesIntoSeasons episodes) /\
        Season.number s = Episode.season ep /\
        In ep (Season.episodes s)).
Proof.
  unfold organizeEpisodesIntoSeasons, Js.Map.entries.
  pose proof (seasonMap_groups episodes) as Hg.
  set (m := fold_left seasonMap_add episodes []) in *.
  pose proof (sort_perm (fun a b : Z * list Episode.t => fst a - fst b) m)
    as Hperm.
  split; [|split].
  - rewrite map_map.
    rewrite (map_ext _ fst season_of_entry_number).
    apply (sorted_nodup_strict fst); [apply (sort_sorted fst)|].
    apply (Permutation_NoDup (l := map fst m));
      [apply Permutation_map; now symmetry|apply Hg].
  - intros s Hs. apply in_map_iff in Hs.
    destruct Hs as [[k bucket] [<- Hin]].
    apply (Permutation_in _ Hperm) in Hin.
    apply (groups_entry m episodes k bucket Hg) in Hin.
    destruct Hin as [-> Hne]. simpl.
    repeat split.
    + exact Hne.
    + apply sort_perm.
    + apply (sort_sorted Episode.episode).
  - intros ep Hep.
    set (k := Episode.season ep).
    assert (Hin : In ep (episodes_of_season k episodes)).
    { apply filter_In. split; [assumption|]. apply Z.eqb_refl. }
    assert (Hentry : In (k, episodes_of_season k episodes) m).
    { apply (groups_entry m episodes k _ Hg). split; [reflexivity|].
      intros Hnil. rewrite Hnil in Hin. contradiction. }
    exists (season_of_entry (k, episodes_of_season k episodes)).
    split; [|split].
    + apply in_map. apply (Permutation_in _ (Permutation_sym Hperm)).
      exact Hentry.
    + reflexivity.
    + simpl. apply (Permutation_in _ (Permutation_sym (sort_perm _ _))).
      exact Hin.
Qed.

End Grouping.

(** C8, as the specification states it, fails on its last clause: of two
    episodes with the season numbers 0 and -1, each gets a season of its
    own number; no bucket of the output holds both. *)
Lemma no_unknown_bucket :
  organizeEpisodesIntoSeasons
    [Sample.episode 1 0 1 "2024-01-01" false;
     Sample.episode 2 (-1) 1 "2024-01-08" true] =
  [Season.mk (-1) [Sample.episode 2 (-1) 1 "2024-01-08" true] 1 1;
   Season.mk 0 [Sample.episode 1 0 1 "2024-01-01" false] 1 0] /\
  ~ unknown_bucket
      [Sample.episode 1 0 1 "2024-01-01" false;
       Sample.episode 2 (-1) 1 "2024-01-08" true]
      (organizeEpisodesIntoSeasons
         [Sample.episode 1 0 1 "2024-01-01" false;
          Sample.episode 2 (-1) 1 "2024-01-08" true]).
Proof.
  split; [reflexivity|].
  intros [bucket [Hin Hall]].
  assert (H1 := Hall (Sample.episode 1 0 1 "2024-01-01" false)
                  (or_introl eq_refl) ltac:(simpl; lia)).
  assert (H2 := Hall (Sample.episode 2 (-1) 1 "2024-01-08" true)
                  (or_intror (or_introl eq_refl)) ltac:(simpl; lia)).
  vm_compute in Hin.
  destruct Hin as [<-|[<-|[]]]; simpl in H1, H2.
  - destruct H1 as [H1|[]]. discriminate H1.
  - destruct H2 as [H2|[]]. discriminate H2.
Qed.

(** ** Worked examples *)

(** The refresh of [Sample.stored_show] with [Sample.fresh_list]: the
    renamed episode keeps its watched flag and date, the new one is not
    watched. *)
Lemma watch_state_preserved_witness :
  nth_error
    (Show.episodes
       (refreshShow Sample.march_2024 Sample.fresh_list Sample.stored_show))
    0 =
  Some (Episode.with_watch Sample.renamed_episode true
          (Some "2024-01-02T20:00:00.000Z"%string)) /\
  nth_error
    (Show.episodes
       (refreshShow Sample.march_2024 Sample.fresh_list Sample.stored_show))
    1 =
  Some (Episode.with_watch (Sample.episode 92 1 2 "2024-02-01" false)
          false None).
Proof.
  split.
  - apply (proj1 (proj2 (watch_state_preserved Sample.march_2024
                           Sample.stored_show Sample.fresh_list 0
                           Sample.renamed_episode eq_refl))
             (Sample.episode 91 1 1 "2024-01-01" true)).
    + simpl. constructor; [intros []|constructor].
    + simpl. left. reflexivity.
    + reflexivity.
    + reflexivity.
    + simpl. discriminate.
  - apply (proj2 (proj2 (watch_state_preserved Sample.march_2024
                           Sample.stored_show Sample.fresh_list 1
                           (Sample.episode 92 1 2 "2024-02-01" false)
                           eq_refl))).
    simpl. intros prior [<-|[]]. simpl. discriminate.
Defined.

Lemma session_reachable : reachable Sample.session.
Proof.
  unfold Sample.session.
  eapply reachable_step; [|apply step_toggleEpisode].
  eapply reachable_step; [|apply step_toggleEpisode].
  eapply reachable_step; [|apply step_add].
  apply reachable_init.
Qed.

Example session_state :
  map (fun show => (Show.id show, Show.watched show,
                    Show.totalEpisodes show, Show.watchedEpisodesCount show,
                    Show.nextEpisode show))
    Sample.session =
  [("tvmaze-1"%string, Some true, 2, 2, None)].
Proof. reflexivity. Qed.

(** The show of [Sample.session], both of its episodes watched. *)
Lemma watched_flag_invariant_witness :
  watched_invariant
    (hd (Sample.item 1 "tvmaze-1") Sample.session) /\
  (Show.episodes (hd (Sample.item 1 "tvmaze-1") Sample.session) = [] ->
   Show.watched (hd (Sample.item 1 "tvmaze-1") Sample.session) = Some false).
Proof.
  apply (proj2 (watched_flag_invariant Sample.session
                  (hd (Sample.item 1 "tvmaze-1") Sample.session))).
  - unfold Sample.session.
    eapply reachable_step; [|apply step_toggleEpisode].
    eapply reachable_step; [|apply step_toggleEpisode].
    eapply reachable_step; [|apply step_add].
    apply reachable_init.
  - vm_compute. left. reflexivity.
Defined.

Lemma identifiers_unique_witness :
  NoDup (ids Sample.session) /\
  addToWatchlist Sample.march_2024 Sample.march_2024 Sample.source
    Sample.session (Sample.item 1 "tvmaze-1") = Sample.session.
Proof.
  assert (H : reachable Sample.session).
  { unfold Sample.session.
    eapply reachable_step; [|apply step_toggleEpisode].
    eapply reachable_step; [|apply step_toggleEpisode].
    eapply reachable_step; [|apply step_add].
    apply reachable_init. }
  destruct (identifiers_unique Sample.session H) as [Hnd [Hadd _]].
  split; [exact Hnd|].
  apply Hadd. vm_compute. left. reflexivity.
Defined.

(** Marking season 1 of [Sample.two_seasons] watched on 1 March 2024:
    the episode aired in January is watched, the one airing in June is
    not, and season 2 is as it was. *)
Example mark_season_aired_only :
  map (fun show => map Episode.watched (Show.episodes show))
    (markSeasonWatched Sample.march_2024 [Sample.two_seasons] "tvmaze-7" 1
       true) =
  [[true; false; true]] /\
  map (fun show => map Episode.watched (Show.episodes show))
    (markSeasonWatched Sample.march_2024
       (markSeriesWatched Sample.march_2024 [Sample.two_seasons]
          "tvmaze-7" true)
       "tvmaze-7" 1 false) =
  [[false; false; true]].
Proof. split; reflexivity. Qed.

Lemma bulk_marking_aired_only_witness :
  Forall2
    (bulk_marked Sample.march_2024 (fun ep => Episode.season ep =? 1) true)
    (Show.episodes Sample.two_seasons)
    (Show.episodes
       (hd Sample.two_seasons
          (markSeasonWatched Sample.march_2024 [Sample.two_seasons]
             "tvmaze-7" 1 true))) /\
  Forall2 (bulk_marked Sample.march_2024 (fun _ => true) false)
    (Show.episodes Sample.two_seasons)
    (Show.episodes
       (hd Sample.two_seasons
          (markSeriesWatched Sample.march_2024 [Sample.two_seasons]
             "tvmaze-7" false))).
Proof.
  assert (Hfind : findShow "tvmaze-7" [Sample.two_seasons] =
                  Some Sample.two_seasons) by reflexivity.
  destruct (bulk_marking_aired_only Sample.march_2024 [Sample.two_seasons]
              "tvmaze-7" Sample.two_seasons Hfind) as [Hseason Hseries].
  split.
  - apply (proj2 (Hseason 1 true)).
    + vm_compute. left. reflexivity.
    + reflexivity.
  - apply (proj2 (Hseries false)).
    + vm_compute. left. reflexivity.
    + reflexivity.
Defined.

(** On 1 March 2024, with the January episode watched and the two
    February episodes listed in air order, the earlier of the two is
    resolved. *)
Lemma next_episode_is_first_candidate_witness :
  earliest_candidate Sample.march_2024
    [Sample.episode 1 1 1 "2024-01-01" true;
     Sample.episode 2 1 2 "2024-02-01" false;
     Sample.episode 3 1 3 "2024-02-15" false]
    (resolveNextEpisode Sample.march_2024
       [Sample.episode 1 1 1 "2024-01-01" true;
        Sample.episode 2 1 2 "2024-02-01" false;
        Sample.episode 3 1 3 "2024-02-15" false]).
Proof.
  apply (next_episode_is_first_candidate Sample.march_2024).
  unfold in_air_order.
  apply SSorted_cons; [apply SSorted_cons; [apply SSorted_cons|]|].
  - apply SSorted_nil.
  - apply Forall_nil.
  - apply Forall_cons; [|apply Forall_nil].
    intros _ _. vm_compute. left. reflexivity.
  - apply Forall_cons; [|apply Forall_cons; [|apply Forall_nil]];
      intros [Hw _]; discriminate Hw.
Defined.

Example next_episode_sorted_example :
  resolveNextEpisode Sample.march_2024
    [Sample.episode 1 1 1 "2024-01-01" true;
     Sample.episode 2 1 2 "2024-02-01" false;
     Sample.episode 3 1 3 "2024-02-15" false] =
  Some (nextEpisode_snapshot (Sample.episode 2 1 2 "2024-02-01" false)).
Proof. reflexivity. Qed.

(** * Further properties of the code *)

(** ** Sorting and the first entries of a sorted list *)

Section SortFacts.
Context {A : Type}.

Lemma sort_insert_ext_in (c c' : A -> A -> Z) (x : A) (l : list A) :
  (forall b, In b l -> c x b = c' x b) ->
  Js.sort_insert c x l = Js.sort_insert c' x l.
Proof.
  induction l as [|y l IH]; simpl; intros H; [reflexivity|].
  rewrite (H y) by now left.
  destruct (c' x y <=? 0); [reflexivity|].
  f_equal. apply IH. intros b Hb. apply H. now right.
Qed.

(** Two comparators that agree on the elements of a list sort it alike. *)
Lemma sort_ext_in (c c' : A -> A -> Z) (l : list A) :
  (forall a b, In a l -> In b l -> c a b = c' a b) ->
  Js.sort c l = Js.sort c' l.
Proof.
  induction l as [|x l IH]; simpl; intros H; [reflexivity|].
  rewrite IH by (intros a b Ha Hb; apply H; now right).
  apply sort_insert_ext_in. intros b Hb. apply H; [now left|].
  right. exact (Permutation_in _ (sort_perm c' l) Hb).
Qed.

Lemma StronglySorted_impl_in (R R' : A -> A -> Prop) (l : list A) :
  (forall a b, In a l -> In b l -> R a b -> R' a b) ->
  StronglySorted R l -> StronglySorted R' l.
Proof.
  induction l as [|x l IH]; intros H Hs; [constructor|].
  apply StronglySorted_inv in Hs. destruct Hs as [Hl Hx].
  constructor.
  - apply IH; [|assumption]. intros a b Ha Hb. apply H; now right.
  - rewrite Forall_forall in *. intros y Hy.
    apply H; [now left|now right|now apply Hx].
Qed.

Lemma StronglySorted_firstn (R : A -> A -> Prop) n (l : list A) :
  StronglySorted R l -> StronglySorted R (firstn n l).
Proof.
  revert l. induction n as [|n IH]; intros l Hs; [constructor|].
  destruct l as [|x l]; [constructor|]. simpl.
  apply StronglySorted_inv in Hs. destruct Hs as [Hl Hx].
  constructor; [now apply IH|].
  rewrite Forall_forall in *. intros y Hy. apply Hx.
  now apply (in_firstn n).
Qed.

(** In a sorted list every one of the first [n] elements is related to
    every element after them. *)
Lemma StronglySorted_firstn_skipn (R : A -> A -> Prop) n (l : list A) :
  StronglySorted R l ->
  forall a b, In a (firstn n l) -> In b (skipn n l) -> R a b.
Proof.
  revert l. induction n as [|n IH]; intros l Hs a b Ha Hb; [destruct Ha|].
  destruct l as [|x l]; [destruct Ha|]. simpl in Ha, Hb.
  apply StronglySorted_inv in Hs. destruct Hs as [Hl Hx].
  destruct Ha as [<-|Ha].
  - rewrite Forall_forall in Hx. apply Hx. now apply (in_skipn n).
  - now apply (IH l).
Qed.

Lemma skipn_nonempty_firstn_full n (l : list A) b :
  In b (skipn n l) -> List.length (firstn n l) = n.
Proof.
  intros Hb. apply firstn_length_le.
  destruct (Nat.le_gt_cases n (List.length l)) as [H|H]; [assumption|].
  rewrite skipn_all2 in Hb by lia. destruct Hb.
Qed.

(** The first [n] elements of a list sorted by a key. *)
Lemma sorted_prefix (key : A -> Z) (n : nat) (l : list A) :
  let p := firstn n (Js.sort (fun a b => key a - key b) l) in
  (List.length p <= n)%nat /\
  (forall e, In e p -> In e l) /\
  StronglySorted (fun a b => key a <= key b) p /\
  (forall e, In e l ->
             In e p \/
             (List.length p = n /\ forall a, In a p -> key a <= key e)).
Proof.
  set (sorted := Js.sort (fun a b => key a - key b) l). simpl.
  pose proof (sort_perm (fun a b => key a - key b) l) as Hperm.
  pose proof (sort_sorted key l) as Hsorted. fold sorted in Hperm, Hsorted.
  repeat split.
  - apply firstn_le_length.
  - intros e He. apply (Permutation_in _ Hperm). now apply (in_firstn n).
  - now apply StronglySorted_firstn.
  - intros e He. apply (Permutation_in _ (Permutation_sym Hperm)) in He.
    rewrite <- (firstn_skipn n sorted) in He.
    apply in_app_or in He. destruct He as [He|He]; [now left|right].
    split; [now apply (skipn_nonempty_firstn_full n sorted e)|].
    intros a Ha.
    exact (StronglySorted_firstn_skipn _ n sorted Hsorted a e Ha He).
Qed.

End SortFacts.

(** ** The views of the watchlist *)

Section ViewFacts.
Context `{D : JsDate}.

Lemma filter_partition {A : Type} (p : A -> bool) (l : list A) :
  Permutation (filter (fun x => negb (p x)) l ++ filter p l) l.
Proof.
  induction l as [|x l IH]; simpl; [reflexivity|].
  destruct (p x); simpl.
  - apply Permutation_sym, Permutation_cons_app, Permutation_sym, IH.
  - now constructor.
Qed.

(** X1 -- The tabs of [getFilteredItems]: the "unwatched" and the
    "watched" tab split the watchlist, every tracked show being in
    exactly one of them (in the "unwatched" one unless its flag is
    [true]), each in the order of the watchlist; any other tab shows the
    whole watchlist. *)
Theorem filtered_tabs_partition (watchlist : Watchlist) :
  Permutation
    (getFilteredItems "unwatched" watchlist
     ++ getFilteredItems "watched" watchlist)
    watchlist /\
  (forall show,
      In show (getFilteredItems "watched" watchlist) <->
      In show watchlist /\ Show.watched show = Some true) /\
  (forall show,
      In show (getFilteredItems "unwatched" watchlist) <->
      In show watchlist /\ Show.watched show <> Some true) /\
  (forall tab, tab <> "unwatched"%string -> tab <> "watched"%string ->
               getFilteredItems tab watchlist = watchlist).
Proof.
  assert (Hflag : forall show,
             isWatched show = true <-> Show.watched show = Some true).
  { intros show. unfold isWatched.
    destruct (Show.watched show) as [[|]|]; split; congruence. }
  split; [|split; [|split]].
  - apply (filter_partition isWatched).
  - intros show. change (getFilteredItems "watched" watchlist)
      with (filter (fun item => isWatched item) watchlist).
    rewrite filter_In, Hflag. reflexivity.
  - intros show. change (getFilteredItems "unwatched" watchlist)
      with (filter (fun item => negb (isWatched item)) watchlist).
    rewrite filter_In, negb_true_iff, <- Hflag.
    destruct (isWatched show); split; intros [H1 H2]; split;
      congruence.
  - intros tab Hu Hw. unfold getFilteredItems.
    apply String.eqb_neq in Hu, Hw. now rewrite Hu, Hw.
Qed.

Lemma collectEpisodes_in (keep : Episode.t -> bool) (keepP : Episode.t -> Prop)
  (watchlist : Watchlist) (e : PanelEpisode.t) :
  (forall ep, keep ep = true <-> keepP ep) ->
  (In e (collectEpisodes keep watchlist) <-> panel_entry keepP watchlist e).
Proof.
  intros Hkeep. unfold collectEpisodes, panel_entry.
  rewrite in_flat_map. split.
  - intros [show [Hin He]]. exists show.
    destruct (isWatched show); simpl in He; [destruct He|].
    apply in_map_iff in He. destruct He as [ep [<- Hep]].
    apply filter_In in Hep. destruct Hep as [Hep Hk]. simpl.
    repeat split; try assumption. now apply Hkeep.
  - intros [show [Hin [Hw [Hep [Hk [Hid Htitle]]]]]]. exists show.
    split; [assumption|]. rewrite Hw. simpl.
    apply in_map_iff. exists (PanelEpisode.ep e). split.
    + destruct e as [ep t i]. simpl in *. now subst.
    + apply filter_In. split; [assumption|now apply Hkeep].
Qed.

Lemma time_diff_known a b ta tb :
  Date_parse (panel_airDate a) = Some ta ->
  Date_parse (panel_airDate b) = Some tb ->
  time_diff (panel_airDate a) (panel_airDate b) = ta - tb.
Proof. intros Ha Hb. unfold time_diff. now rewrite Ha, Hb. Qed.

(** A panel built as both panels are: collect, sort by air date in one
    direction or the other, keep ten. *)
Lemma panel_first_ten (keep : Episode.t -> bool) (keepP : Episode.t -> Prop)
  (cmp : PanelEpisode.t -> PanelEpisode.t -> Z) (sign : Z)
  (listed : PanelEpisode.t -> PanelEpisode.t -> Prop)
  (watchlist : Watchlist) :
  (forall ep, keep ep = true <-> keepP ep) ->
  (forall ep, keepP ep -> exists t, Date_parse (Episode.airDate ep) = Some t) ->
  (forall a b ta tb,
      Date_parse (panel_airDate a) = Some ta ->
      Date_parse (panel_airDate b) = Some tb ->
      cmp a b = sign * ta - sign * tb /\
      (sign * ta <= sign * tb -> listed a b)) ->
  first_ten listed (panel_entry keepP watchlist)
    (firstn 10 (Js.sort cmp (collectEpisodes keep watchlist))).
Proof.
  intros Hkeep Hknown Hcmp.
  set (all := collectEpisodes keep watchlist).
  set (key := fun e => sign * panel_time e).
  assert (Htime : forall e, In e all ->
             exists t, Date_parse (panel_airDate e) = Some t /\
                       panel_time e = t).
  { intros e He. apply (collectEpisodes_in keep keepP) in He; [|assumption].
    destruct He as [show [_ [_ [_ [Hk _]]]]].
    destruct (Hknown _ Hk) as [t Ht]. exists t. split; [exact Ht|].
    unfold panel_time, panel_airDate. now rewrite Ht. }
  assert (Hsort : Js.sort cmp all = Js.sort (fun a b => key a - key b) all).
  { apply sort_ext_in. intros a b Ha Hb.
    destruct (Htime a Ha) as [ta [Hta Hka]].
    destruct (Htime b Hb) as [tb [Htb Hkb]].
    unfold key. rewrite Hka, Hkb. now apply Hcmp. }
  rewrite Hsort.
  destruct (sorted_prefix key 10 all) as [Hlen [Hin [Hsorted Hrest]]].
  assert (Hlisted : forall a b, In a all -> In b all ->
                                key a <= key b -> listed a b).
  { intros a b Ha Hb Hle.
    destruct (Htime a Ha) as [ta [Hta Hka]].
    destruct (Htime b Hb) as [tb [Htb Hkb]].
    unfold key in Hle. rewrite Hka, Hkb in Hle.
    now apply (Hcmp a b ta tb). }
  split; [exact Hlen|split; [|split]].
  - intros e He. apply (collectEpisodes_in keep keepP); [assumption|].
    now apply Hin.
  - apply (StronglySorted_impl_in (fun a b => key a <= key b));
      [|exact Hsorted].
    intros a b Ha Hb. apply Hlisted; now apply Hin.
  - intros e He. apply (collectEpisodes_in keep keepP) in He; [|assumption].
    destruct (Hrest e He) as [Hp|[Hfull Hall]]; [now left|right].
    split; [exact Hfull|]. intros a Ha.
    apply Hlisted; [now apply Hin|assumption|now apply Hall].
Qed.

Lemma latest_keep now ep :
  negb (Episode.watched ep) && hasAired now (Episode.airDate ep) = true <->
  Episode.watched ep = false /\ aired now ep.
Proof. apply candidate_iff. Qed.

Lemma upcoming_keep now ep :
  negb (Episode.watched ep) && isUpcoming now (Episode.airDate ep) = true <->
  Episode.watched ep = false /\ upcoming now ep.
Proof.
  rewrite andb_true_iff, negb_true_iff. unfold isUpcoming, upcoming.
  destruct (Date_parse (Episode.airDate ep)) as [t|]; split.
  - intros [Hw Ht]. split; [assumption|]. exists t.
    split; [reflexivity|]. now apply Z.ltb_lt.
  - intros [Hw [t' [[= <-] Hlt]]]. split; [assumption|]. now apply Z.ltb_lt.
  - intros [_ H]. discriminate.
  - intros [_ [t [H _]]]. discriminate.
Qed.

(** X2 -- The "latest episodes" panel ([getLatestUnwatchedEpisodes]):
    it lists at most ten entries, each an unwatched episode that has
    aired, of a tracked show that is not watched, tagged with that
    show; they stand newest first or oldest first as the sort order
    asks; and an eligible episode is left out only when the panel is
    full, all ten listed entries then standing before it in that
    order. *)
Theorem latest_panel_first_ten (now : Z) (order : LatestOrder)
  (watchlist : Watchlist) :
  first_ten (latest_order order)
    (panel_entry (fun ep => Episode.watched ep = false /\ aired now ep)
       watchlist)
    (getLatestUnwatchedEpisodes now order watchlist).
Proof.
  unfold getLatestUnwatchedEpisodes.
  destruct order.
  - apply (panel_first_ten _ _ _ (-1)).
    + apply latest_keep.
    + intros ep [_ [t [Ht _]]]. now exists t.
    + intros a b ta tb Ha Hb. split.
      * rewrite (time_diff_known b a tb ta Hb Ha). lia.
      * intros Hle. exists tb, ta. repeat split; try assumption. lia.
  - apply (panel_first_ten _ _ _ 1).
    + apply latest_keep.
    + intros ep [_ [t [Ht _]]]. now exists t.
    + intros a b ta tb Ha Hb. split.
      * rewrite (time_diff_known a b ta tb Ha Hb). lia.
      * intros Hle. exists ta, tb. repeat split; try assumption. lia.
Qed.

(** X3 -- The "upcoming episodes" panel
    ([getUpcomingUnwatchedEpisodes]): it lists at most ten entries,
    each an unwatched episode airing after [now], of a tracked show
    that is not watched; they stand soonest first or latest first as
    the sort order asks; an eligible episode is left out only when the
    panel is full, the ten listed entries standing before it; and no
    episode is listed by both panels at one instant. *)
Theorem upcoming_panel_first_ten (now : Z) (order : UpcomingOrder)
  (watchlist : Watchlist) :
  first_ten (upcoming_order order)
    (panel_entry (fun ep => Episode.watched ep = false /\ upcoming now ep)
       watchlist)
    (getUpcomingUnwatchedEpisodes now order watchlist) /\
  (forall order' e,
      In e (getUpcomingUnwatchedEpisodes now order watchlist) ->
      ~ In e (getLatestUnwatchedEpisodes now order' watchlist)).
Proof.
  assert (Hpanel : forall order,
             first_ten (upcoming_order order)
               (panel_entry
                  (fun ep => Episode.watched ep = false /\ upcoming now ep)
                  watchlist)
               (getUpcomingUnwatchedEpisodes now order watchlist)).
  { clear order. intros order. unfold getUpcomingUnwatchedEpisodes.
    destruct order.
    - apply (panel_first_ten _ _ _ 1).
      + apply upcoming_keep.
      + intros ep [_ [t [Ht _]]]. now exists t.
      + intros a b ta tb Ha Hb. split.
        * rewrite (time_diff_known a b ta tb Ha Hb). lia.
        * intros Hle. exists ta, tb. repeat split; try assumption. lia.
    - apply (panel_first_ten _ _ _ (-1)).
      + apply upcoming_keep.
      + intros ep [_ [t [Ht _]]]. now exists t.
      + intros a b ta tb Ha Hb. split.
        * rewrite (time_diff_known b a tb ta Hb Ha). lia.
        * intros Hle. exists tb, ta. repeat split; try assumption. lia. }
  split; [apply Hpanel|].
  intros order' e Hup Hlatest.
  destruct (Hpanel order) as [_ [Hin _]].
  apply Hin in Hup. destruct Hup as [_ [_ [_ [_ [[_ [t [Ht Hlt]]] _]]]]].
  unfold getLatestUnwatchedEpisodes in Hlatest.
  apply in_firstn in Hlatest.
  apply (Permutation_in _ (sort_perm _ _)) in Hlatest.
  apply (collectEpisodes_in _ _ watchlist e (latest_keep now)) in Hlatest.
  destruct Hlatest as [_ [_ [_ [_ [[_ [t' [Ht' Hle]]] _]]]]].
  rewrite Ht in Ht'. injection Ht' as <-. lia.
Qed.

End ViewFacts.

(** ** Expansion state *)

Lemma existsb_eqb_in (n : Z) (l : list Z) :
  existsb (fun s => s =? n) l = true <-> In n l.
Proof.
  rewrite existsb_exists. split.
  - intros [x [Hin Heq]]. apply Z.eqb_eq in Heq. now subst.
  - intros Hin. exists n. split; [assumption|apply Z.eqb_refl].
Qed.

Lemma toggleExpanded_membership (n : Z) (show : Show.t) :
  same_but_expanded show (toggleExpanded n show) /\
  (In n (expanded (toggleExpanded n show)) <-> ~ In n (expanded show)) /\
  (forall m, m <> n ->
             (In m (expanded (toggleExpanded n show)) <->
              In m (expanded show))).
Proof.
  split; [now destruct show|].
  unfold toggleExpanded, expanded at 1 3. simpl.
  fold (expanded show).
  destruct (existsb (fun s => s =? n) (expanded show)) eqn:Hex.
  - apply existsb_eqb_in in Hex. split.
    + rewrite filter_In, negb_true_iff, Z.eqb_neq. tauto.
    + intros m Hm. rewrite filter_In, negb_true_iff, Z.eqb_neq. tauto.
  - assert (Hnot : ~ In n (expanded show)).
    { intros Hin. apply existsb_eqb_in in Hin. congruence. }
    split.
    + rewrite in_app_iff. simpl. tauto.
    + intros m Hm. rewrite in_app_iff. simpl. split; [|tauto].
      intros [H|[H|[]]]; [assumption|congruence].
Qed.

(** X4 -- [toggleSeasonExpansion] keeps the watchlist position by
    position: a show with another identifier is untouched, and in the
    show with the identifier only [expandedSeasons] changes, the given
    season being expanded afterwards exactly when it was not before
    and every other season as before. *)
Theorem season_expansion_toggles (wl : Watchlist) (showId : string)
  (n : Z) (i : nat) (show : Show.t) :
  nth_error wl i = Some show ->
  exists show',
    nth_error (toggleSeasonExpansion wl showId n) i = Some show' /\
    (Show.id show <> showId -> show' = show) /\
    (Show.id show = showId ->
     same_but_expanded show show' /\
     (In n (expanded show') <-> ~ In n (expanded show)) /\
     (forall m, m <> n -> (In m (expanded show') <-> In m (expanded show)))).
Proof.
  intros Hnth. unfold toggleSeasonExpansion.
  rewrite nth_error_map, Hnth. simpl.
  destruct (String.eqb_spec (Show.id show) showId) as [Heq|Hne].
  - exists (toggleExpanded n show). split; [reflexivity|].
    split; [contradiction|]. intros _. apply toggleExpanded_membership.
  - exists show. split; [reflexivity|]. split; [reflexivity|contradiction].
Qed.

Lemma season_expansion_toggles_witness :
  exists show',
    nth_error (toggleSeasonExpansion [Sample.two_seasons] "tvmaze-7" 2) 0 =
    Some show' /\
    In 2 (expanded show') /\ Show.episodes show' =
                             Show.episodes Sample.two_seasons.
Proof.
  destruct (season_expansion_toggles [Sample.two_seasons] "tvmaze-7" 2 0
              Sample.two_seasons eq_refl) as [show' [Hnth [_ Hsame]]].
  exists show'. split; [exact Hnth|].
  destruct (Hsame eq_refl) as [Hbut [Hin _]]. split.
  - apply Hin. simpl. intros [].
  - unfold same_but_expanded in Hbut.
    now rewrite <- Hbut.
Defined.

Lemma existsb_string_in (x : string) (l : list string) :
  existsb (fun s => (s =? x)%string) l = true <-> In x l.
Proof.
  rewrite existsb_exists. split.
  - intros [y [Hin Heq]]. apply String.eqb_eq in Heq. now subst.
  - intros Hin. exists x. split; [assumption|apply String.eqb_refl].
Qed.

(** X5 -- [toggleShowExpansion]: the given show is in the set of
    expanded shows afterwards exactly when it was not before, every
    other show is in it as before, no element is repeated, and toggling
    twice gives back a set with the same elements. *)
Theorem show_expansion_toggles (prev : list string) (showId : string) :
  (In showId (toggleShowExpansion prev showId) <-> ~ In showId prev) /\
  (forall other, other <> showId ->
                 (In other (toggleShowExpansion prev showId) <->
                  In other prev)) /\
  (NoDup prev -> NoDup (toggleShowExpansion prev showId)) /\
  (forall other,
      In other
        (toggleShowExpansion (toggleShowExpansion prev showId) showId) <->
      In other prev).
Proof.
  assert (Hflip : forall l,
             (In showId (toggleShowExpansion l showId) <-> ~ In showId l) /\
             (forall other, other <> showId ->
                            (In other (toggleShowExpansion l showId) <->
                             In other l))).
  { intros l. unfold toggleShowExpansion.
    destruct (existsb _ l) eqn:Hex.
    - apply existsb_string_in in Hex. split.
      + rewrite filter_In, negb_true_iff, String.eqb_neq. tauto.
      + intros other Ho. rewrite filter_In, negb_true_iff, String.eqb_neq.
        tauto.
    - assert (Hnot : ~ In showId l).
      { intros Hin. apply existsb_string_in in Hin. congruence. }
      split.
      + rewrite in_app_iff. simpl. tauto.
      + intros other Ho. rewrite in_app_iff. simpl. split; [|tauto].
        intros [H|[H|[]]]; [assumption|congruence]. }
  split; [apply Hflip|split; [apply Hflip|split]].
  - intros Hnd. unfold toggleShowExpansion.
    destruct (existsb _ prev) eqn:Hex.
    + now apply NoDup_filter.
    + apply NoDup_app; [assumption|repeat constructor; intros []|].
      intros x Hx [<-|[]]. apply existsb_string_in in Hx. congruence.
  - intros other.
    destruct (String.eqb_spec other showId) as [->|Hne].
    + rewrite (proj1 (Hflip _)), (proj1 (Hflip prev)).
      destruct (in_dec string_dec showId prev); tauto.
    + rewrite (proj2 (Hflip _) other Hne). now apply Hflip.
Qed.

(** ** Adding, removing and refreshing a show *)

Section WatchlistFacts.
Context `{D : JsDate}.

Lemma in_ids show wl : In show wl -> In (Show.id show) (ids wl).
Proof. intros H. unfold ids. now apply in_map. Qed.

Lemma removeFromWatchlist_absent wl itemId :
  ~ In itemId (ids wl) -> removeFromWatchlist wl itemId = wl.
Proof.
  intros Hnot. unfold removeFromWatchlist.
  induction wl as [|w wl IH]; simpl; [reflexivity|].
  destruct (String.eqb_spec (Show.id w) itemId) as [Heq|Hne]; simpl.
  - exfalso. apply Hnot. left. exact Heq.
  - f_equal. apply IH. intros Hin. apply Hnot. now right.
Qed.

Lemma removeFromWatchlist_app wl wl' itemId :
  removeFromWatchlist (wl ++ wl') itemId =
  removeFromWatchlist wl itemId ++ removeFromWatchlist wl' itemId.
Proof. apply filter_app. Qed.

Lemma replaceShow_app id updated wl wl' :
  replaceShow id updated (wl ++ wl') =
  replaceShow id updated wl ++ replaceShow id updated wl'.
Proof. apply map_app. Qed.

Lemma replaceShow_not_in id updated wl :
  ~ In id (ids wl) -> replaceShow id updated wl = wl.
Proof.
  intros Hnot. apply replaceShow_absent. intros show Hin Heq.
  apply Hnot. rewrite <- Heq. now apply in_ids.
Qed.

(** The watchlist after [addToWatchlist] of an untracked item. *)
Lemma addToWatchlist_new now now' source wl item :
  ~ In (Show.id item) (ids wl) ->
  exists fresh,
    fetchEpisodeList (source (Show.tvmazeId item)) = Return fresh /\
    addToWatchlist now now' source wl item =
    wl ++ [refreshShow now' fresh (newItem now item)].
Proof.
  intros Hnot.
  destruct (updateShowWithEpisodes_returns now' source (newItem now item))
    as [fresh [Hfresh Hupd]].
  exists fresh. split; [exact Hfresh|].
  unfold addToWatchlist.
  destruct (findShow (Show.id item) wl) as [show|] eqn:Hfind.
  - exfalso. apply findShow_some in Hfind. destruct Hfind as [Hin Heq].
    apply Hnot. rewrite <- Heq. now apply in_ids.
  - unfold addToWatchlist_loaded. rewrite Hupd.
    rewrite replaceShow_app, replaceShow_not_in by assumption.
    simpl. now rewrite String.eqb_refl.
Qed.

(** X6 -- Removing what was just added: for an item whose identifier is
    not tracked, [removeFromWatchlist] after [addToWatchlist] gives the
    watchlist back; after [removeFromWatchlist] no tracked show has the
    identifier, and the shows kept are the shows with another
    identifier. *)
Theorem remove_after_add (now now' : Z) (source : Source) (wl : Watchlist)
  (item : Show.t) :
  ~ In (Show.id item) (ids wl) ->
  removeFromWatchlist (addToWatchlist now now' source wl item)
    (Show.id item) = wl /\
  (forall itemId,
      ~ In itemId (ids (removeFromWatchlist wl itemId)) /\
      forall show,
        In show (removeFromWatchlist wl itemId) <->
        In show wl /\ Show.id show <> itemId).
Proof.
  intros Hnot. split.
  - destruct (addToWatchlist_new now now' source wl item Hnot)
      as [fresh [_ Hadd]].
    rewrite Hadd, removeFromWatchlist_app.
    rewrite removeFromWatchlist_absent by assumption.
    unfold removeFromWatchlist at 1. simpl.
    rewrite String.eqb_refl. simpl. apply app_nil_r.
  - intros itemId.
    assert (Hin : forall show,
               In show (removeFromWatchlist wl itemId) <->
               In show wl /\ Show.id show <> itemId).
    { intros show. unfold removeFromWatchlist.
      rewrite filter_In, negb_true_iff, String.eqb_neq. reflexivity. }
    split; [|exact Hin].
    unfold ids. intros Hid. apply in_map_iff in Hid.
    destruct Hid as [show [Heq Hshow]]. apply Hin in Hshow. tauto.
Qed.

Lemma fetched_episode_unwatched ep :
  Episode.watched (episode_of_raw ep) = false /\
  Episode.watchedDate (episode_of_raw ep) = None.
Proof. split; reflexivity. Qed.

Lemma fetchEpisodeList_unwatched o fresh :
  fetchEpisodeList o = Return fresh ->
  Forall (fun ep => Episode.watched ep = false /\
                    Episode.watchedDate ep = None) fresh.
Proof.
  destruct o as [|status [| |eps]]; simpl; intros [= <-];
    try constructor.
  apply Forall_map, Forall_forall. intros ep _.
  apply fetched_episode_unwatched.
Qed.

Lemma mergeEpisodes_nil fresh :
  Forall (fun ep => Episode.watched ep = false /\
                    Episode.watchedDate ep = None) fresh ->
  mergeEpisodes [] fresh = fresh.
Proof.
  intros H. unfold mergeEpisodes. rewrite <- (map_id fresh) at 2.
  apply map_ext_in. intros ep Hin.
  rewrite Forall_forall in H. destruct (H ep Hin) as [Hw Hd].
  unfold mergeEpisode. simpl. destruct ep. simpl in *. now subst.
Qed.

Lemma count_watched_none episodes :
  Forall (fun ep => Episode.watched ep = false /\
                    Episode.watchedDate ep = None) episodes ->
  count_watched episodes = 0.
Proof.
  intros H. unfold count_watched.
  induction H as [|ep l [Hw _] _ IH]; simpl; [reflexivity|].
  now rewrite Hw.
Qed.

(** X7 -- A show just added: for an item whose identifier is not
    tracked, [addToWatchlist] appends one show, behind the shows
    tracked before; it has the identifier of the item and the episodes
    that the fetch answered, none of them watched, whatever the item
    held: zero watched episodes, [watched == false], and the first
    fetched episode that has aired as next episode. *)
Theorem added_show_is_unwatched (now now' : Z) (source : Source)
  (wl : Watchlist) (item : Show.t) :
  ~ In (Show.id item) (ids wl) ->
  exists fresh added,
    fetchEpisodeList (source (Show.tvmazeId item)) = Return fresh /\
    addToWatchlist now now' source wl item = wl ++ [added] /\
    Show.id added = Show.id item /\
    Show.episodes added = fresh /\
    Forall (fun ep => Episode.watched ep = false /\
                      Episode.watchedDate ep = None) fresh /\
    Show.totalEpisodes added = Z.of_nat (List.length fresh) /\
    Show.watchedEpisodesCount added = 0 /\
    Show.watched added = Some false /\
    Show.nextEpisode added = resolveNextEpisode now' fresh.
Proof.
  intros Hnot.
  destruct (addToWatchlist_new now now' source wl item Hnot)
    as [fresh [Hfresh Hadd]].
  pose proof (fetchEpisodeList_unwatched _ _ Hfresh) as Hunwatched.
  set (added := refreshShow now' fresh (newItem now item)).
  assert (Hep : Show.episodes added = fresh).
  { unfold added. rewrite refreshShow_episodes. now apply mergeEpisodes_nil. }
  destruct (refreshShow_agrees now' fresh (newItem now item))
    as [Htotal [Hcount Hwatched]].
  fold added in Htotal, Hcount, Hwatched.
  assert (Hnext : Show.nextEpisode added =
                  resolveNextEpisode now' (Show.episodes added))
    by reflexivity.
  rewrite Hep in Htotal, Hcount, Hnext.
  rewrite (count_watched_none _ Hunwatched) in Hcount.
  exists fresh, added.
  split; [exact Hfresh|]. split; [exact Hadd|]. split; [reflexivity|].
  split; [exact Hep|]. split; [exact Hunwatched|].
  split; [exact Htotal|]. split; [exact Hcount|]. split; [|exact Hnext].
  rewrite Hwatched, Hcount, Htotal. unfold all_watched.
  destruct fresh; reflexivity.
Qed.

(** X8 -- A refresh invents no watch state and follows the fresh list:
    the refreshed list has the identifiers of the fresh list, in its
    order (a stored episode absent from the fresh list is gone), and an
    episode is watched after the refresh only if a stored episode with
    its identifier was watched. *)
Theorem refresh_invents_no_watch_state (now : Z) (F : list Episode.t)
  (show : Show.t) :
  map Episode.id (Show.episodes (refreshShow now F show)) =
  map Episode.id F /\
  (forall ep,
      In ep (Show.episodes (refreshShow now F show)) ->
      Episode.watched ep = true ->
      exists prior,
        In prior (Show.episodes show) /\
        Episode.id prior = Episode.id ep /\
        Episode.watched prior = true).
Proof.
  rewrite refreshShow_episodes. unfold mergeEpisodes. split.
  - rewrite map_map. apply map_ext. intros f. apply mergeEpisode_id.
  - intros ep Hin Hw. apply in_map_iff in Hin.
    destruct Hin as [f [<- Hf]]. unfold mergeEpisode in Hw. simpl in Hw.
    destruct (existingEp (Show.episodes show) f) as [prior|] eqn:Hfind;
      [|discriminate].
    exists prior. rewrite orb_false_r in Hw.
    split; [|split; [|exact Hw]].
    + unfold existingEp in Hfind. now apply find_some in Hfind.
    + rewrite mergeEpisode_id. now apply existingEp_id in Hfind.
Qed.

End WatchlistFacts.

Lemma remove_after_add_witness :
  removeFromWatchlist
    (addToWatchlist Sample.mid_january_2024 Sample.march_2024 Sample.source
       Sample.five_stale_shows (Sample.item 9 "tvmaze-9"))
    "tvmaze-9" = Sample.five_stale_shows.
Proof.
  apply (remove_after_add Sample.mid_january_2024 Sample.march_2024
           Sample.source Sample.five_stale_shows (Sample.item 9 "tvmaze-9")).
  simpl. intros [H|[H|[H|[H|[H|[]]]]]]; discriminate H.
Defined.

Lemma added_show_is_unwatched_witness :
  exists fresh added,
    addToWatchlist Sample.mid_january_2024 Sample.march_2024 Sample.source
      Sample.five_stale_shows (Sample.item 9 "tvmaze-9") =
    Sample.five_stale_shows ++ [added] /\
    Show.episodes added = fresh /\ Show.watched added = Some false.
Proof.
  destruct (added_show_is_unwatched Sample.mid_january_2024
              Sample.march_2024 Sample.source Sample.five_stale_shows
              (Sample.item 9 "tvmaze-9"))
    as [fresh [added [_ [Hadd [_ [Hep [_ [_ [_ [Hw _]]]]]]]]]].
  - simpl. intros [H|[H|[H|[H|[H|[]]]]]]; discriminate H.
  - exists fresh, added. repeat split; assumption.
Defined.

(** ** Marking a series and toggling an episode *)

Section MarkingFacts.
Context `{D : JsDate}.

Lemma count_watched_le episodes :
  0 <= count_watched episodes <= Z.of_nat (List.length episodes).
Proof.
  unfold count_watched. pose proof (filter_length_le Episode.watched episodes).
  lia.
Qed.

Lemma count_watched_cons ep episodes :
  count_watched (ep :: episodes) =
  (if Episode.watched ep then 1 else 0) + count_watched episodes.
Proof.
  unfold count_watched. cbn [filter].
  destruct (Episode.watched ep); cbn [List.length];
    rewrite ?Nat2Z.inj_succ; lia.
Qed.

(** All the episodes are counted as watched exactly when each is. *)
Lemma count_watched_all episodes :
  count_watched episodes = Z.of_nat (List.length episodes) <->
  forall ep, In ep episodes -> Episode.watched ep = true.
Proof.
  induction episodes as [|ep l IH].
  - split; [intros _ ep []|reflexivity].
  - rewrite count_watched_cons. pose proof (count_watched_le l) as Hle.
    change (List.length (ep :: l)) with (S (List.length l)).
    destruct (Episode.watched ep) eqn:Hw; split.
    + intros H e [<-|Hin]; [assumption|]. apply IH; [lia|assumption].
    + intros H. assert (count_watched l = Z.of_nat (List.length l)).
      { apply IH. intros e He. apply H. now right. }
      lia.
    + intros H. lia.
    + intros H. specialize (H ep (or_introl eq_refl)). congruence.
Qed.

Lemma markSeries_watched_flag now watched episodes ep' :
  In ep' (markSeries_episodes now watched episodes) ->
  exists ep,
    In ep episodes /\ Episode.airDate ep' = Episode.airDate ep /\
    Episode.watched ep' =
    (if watched then hasAired now (Episode.airDate ep) else false) /\
    Episode.watchedDate ep' =
    (if Episode.watched ep' then Some (toISOString now) else None).
Proof.
  unfold markSeries_episodes. intros Hin. apply in_map_iff in Hin.
  destruct Hin as [ep [<- Hep]]. exists ep. repeat split; assumption.
Qed.

Lemma markSeries_in now watched episodes ep :
  In ep episodes ->
  exists ep',
    In ep' (markSeries_episodes now watched episodes) /\
    Episode.watched ep' =
    (if watched then hasAired now (Episode.airDate ep) else false) /\
    Episode.airDate ep' = Episode.airDate ep.
Proof.
  intros Hin. eexists. split.
  - unfold markSeries_episodes. apply in_map. exact Hin.
  - split; reflexivity.
Qed.

Lemma resolveNextEpisode_none now episodes :
  resolveNextEpisode now episodes = None <->
  forall ep, In ep episodes -> ~ candidate now ep.
Proof.
  unfold resolveNextEpisode, nextUnwatched.
  destruct (find _ episodes) as [ep|] eqn:Hfind; split.
  - discriminate.
  - intros H. exfalso. apply find_some in Hfind.
    destruct Hfind as [Hin Hc]. apply candidate_iff in Hc.
    now apply (H ep).
  - intros _ ep Hin. apply not_candidate. exact (find_none _ _ Hfind ep Hin).
  - reflexivity.
Qed.

(** X9 -- What [markSeriesWatched] leaves, [current] being the tracked
    show with the identifier.  Marked watched: there is no next episode,
    the show carries the date of the action, and it is watched exactly
    when it has an episode and all its episodes have aired.  Marked
    unwatched: no episode is watched or carries a date, the count is
    zero, the show is not watched and carries no date, and there is a
    next episode exactly when some episode has aired. *)
Theorem series_marking_outcome (now : Z) (wl : Watchlist) (showId : string)
  (current : Show.t) :
  findShow showId wl = Some current ->
  (forall show,
      In show (markSeriesWatched now wl showId true) ->
      Show.id show = showId ->
      Show.nextEpisode show = None /\
      Show.watchedDate show = Some (toISOString now) /\
      (Show.watched show = Some true <->
       Show.episodes current <> [] /\
       forall ep, In ep (Show.episodes current) -> aired now ep)) /\
  (forall show,
      In show (markSeriesWatched now wl showId false) ->
      Show.id show = showId ->
      Forall (fun ep => Episode.watched ep = false /\
                        Episode.watchedDate ep = None)
        (Show.episodes show) /\
      Show.watchedEpisodesCount show = 0 /\
      Show.watched show = Some false /\
      Show.watchedDate show = None /\
      (Show.nextEpisode show = None <->
       forall ep, In ep (Show.episodes current) -> ~ aired now ep)).
Proof.
  intros Hfind. destruct (findShow_some _ _ _ Hfind) as [Hin Hid].
  unfold markSeriesWatched. rewrite Hfind.
  split; intros show Hshow Hsid;
    (apply replaceShow_in in Hshow; [|assumption|exact Hid]);
    subst show; simpl.
  - split; [|split; [reflexivity|]].
    + apply resolveNextEpisode_none. intros ep' Hep' [Hw Haired].
      destruct (markSeries_watched_flag _ _ _ _ Hep')
        as [ep [_ [Hdate [Hflag _]]]].
      apply hasAired_aired in Haired. rewrite Hdate in Haired.
      congruence.
    + split.
      * intros [= Hall]. apply all_watched_iff in Hall.
        destruct Hall as [Hpos Hcount].
        pose proof (proj1 (count_watched_all _) Hcount) as Hflags.
        split.
        -- intros Hnil. unfold markSeries_episodes in Hpos.
           rewrite Hnil in Hpos. simpl in Hpos. lia.
        -- intros ep Hep.
           destruct (markSeries_in now true _ ep Hep) as [ep' [Hep' [Hw _]]].
           apply hasAired_aired. rewrite <- Hw. now apply Hflags.
      * intros [Hne Hall]. f_equal. apply all_watched_iff. split.
        -- unfold markSeries_episodes. rewrite length_map.
           destruct (Show.episodes current); [contradiction|simpl; lia].
        -- apply count_watched_all. intros ep' Hep'.
           destruct (markSeries_watched_flag _ _ _ _ Hep')
             as [ep [Hep [_ [Hflag _]]]].
           rewrite Hflag. apply hasAired_aired. now apply Hall.
  - assert (Hunwatched : Forall (fun ep => Episode.watched ep = false /\
                                           Episode.watchedDate ep = None)
                           (markSeries_episodes now false
                              (Show.episodes current))).
    { apply Forall_forall. intros ep' Hep'.
      destruct (markSeries_watched_flag _ _ _ _ Hep')
        as [ep [_ [_ [Hflag Hdate]]]].
      rewrite Hflag in Hdate. now split. }
    split; [exact Hunwatched|].
    rewrite (count_watched_none _ Hunwatched).
    split; [reflexivity|]. split; [|split; [reflexivity|]].
    + unfold all_watched.
      destruct (Z.of_nat (List.length
                          (markSeries_episodes now false
                             (Show.episodes current))));
        reflexivity.
    + rewrite resolveNextEpisode_none. split.
      * intros H ep Hep Haired.
        destruct (markSeries_in now false _ ep Hep) as [ep' [Hep' [Hw Hd]]].
        apply (H ep' Hep'). split; [exact Hw|].
        unfold aired in *. now rewrite Hd.
      * intros H ep' Hep' [_ Haired].
        destruct (markSeries_watched_flag _ _ _ _ Hep')
          as [ep [Hep [Hdate _]]].
        apply (H ep Hep). unfold aired in *. now rewrite <- Hdate.
Qed.

End MarkingFacts.

Lemma series_marking_outcome_witness :
  Show.nextEpisode
    (hd Sample.two_seasons
       (markSeriesWatched Sample.march_2024 [Sample.two_seasons] "tvmaze-7"
          true)) = None /\
  Show.watchedEpisodesCount
    (hd Sample.two_seasons
       (markSeriesWatched Sample.march_2024 [Sample.two_seasons] "tvmaze-7"
          false)) = 0.
Proof.
  assert (Hfind : findShow "tvmaze-7" [Sample.two_seasons] =
                  Some Sample.two_seasons) by reflexivity.
  destruct (series_marking_outcome Sample.march_2024 [Sample.two_seasons]
              "tvmaze-7" Sample.two_seasons Hfind) as [Hmark Hunmark].
  split.
  - apply Hmark; [vm_compute; left; reflexivity|reflexivity].
  - apply Hunmark; [vm_compute; left; reflexivity|reflexivity].
Defined.

Section ToggleFacts.
Context `{D : JsDate}.

Lemma toggle_episodes_absent now episodeId episodes :
  (forall ep, In ep episodes -> Episode.id ep <> episodeId) ->
  toggle_episodes now episodeId episodes = episodes.
Proof.
  intros H. unfold toggle_episodes. rewrite <- (map_id episodes) at 2.
  apply map_ext_in. intros ep Hin. apply H in Hin.
  apply Z.eqb_neq in Hin. now rewrite Hin.
Qed.

Lemma toggle_episodes_twice_flags now now' episodeId episodes :
  map Episode.watched
    (toggle_episodes now' episodeId
       (toggle_episodes now episodeId episodes)) =
  map Episode.watched episodes.
Proof.
  unfold toggle_episodes. rewrite !map_map. apply map_ext. intros ep.
  destruct (Episode.id ep =? episodeId) eqn:Heq; simpl.
  - rewrite Heq. simpl. apply negb_involutive.
  - now rewrite Heq.
Qed.

Lemma count_watched_flags l l' :
  map Episode.watched l = map Episode.watched l' ->
  count_watched l = count_watched l'.
Proof.
  revert l'. induction l as [|a l IH]; intros [|b l'] H; try discriminate.
  - reflexivity.
  - simpl in H. injection H as Hab Hl. rewrite !count_watched_cons, Hab.
    now rewrite (IH l').
Qed.

(** Toggling an episode whose identifier no other episode has moves the
    count by one. *)
Lemma count_watched_toggle now episodeId episodes target :
  NoDup (map Episode.id episodes) -> In target episodes ->
  Episode.id target = episodeId ->
  count_watched (toggle_episodes now episodeId episodes) =
  count_watched episodes + (if Episode.watched target then -1 else 1).
Proof.
  intros Hnd Hin Hid. induction episodes as [|a l IH]; [destruct Hin|].
  inversion Hnd as [|x xs Hnotin Hnd']; subst.
  change (toggle_episodes now (Episode.id target) (a :: l))
    with ((if Episode.id a =? Episode.id target
           then Episode.with_watch a (negb (Episode.watched a))
                  (if negb (Episode.watched a)
                   then Some (toISOString now) else None)
           else a) :: toggle_episodes now (Episode.id target) l).
  rewrite !count_watched_cons.
  destruct Hin as [->|Hin].
  - rewrite Z.eqb_refl. cbn [Episode.watched Episode.with_watch].
    rewrite toggle_episodes_absent.
    + destruct (Episode.watched target); cbn [negb]; lia.
    + intros ep Hep Heq. apply Hnotin. rewrite <- Heq. now apply in_map.
  - destruct (Z.eqb_spec (Episode.id a) (Episode.id target)) as [Heq|Hne].
    + exfalso. apply Hnotin. rewrite Heq. now apply in_map.
    + rewrite (IH Hnd' Hin). lia.
Qed.

Lemma findShow_replaceShow id updated wl current :
  findShow id wl = Some current -> Show.id updated = id ->
  findShow id (replaceShow id updated wl) = Some updated.
Proof.
  unfold findShow, replaceShow. intros Hfind Hid.
  induction wl as [|w wl IH]; simpl in *; [discriminate|].
  destruct (String.eqb_spec (Show.id w) id) as [Heq|Hne].
  - rewrite Hid. now rewrite String.eqb_refl.
  - destruct (String.eqb_spec (Show.id w) id); [contradiction|].
    now apply IH.
Qed.

Lemma replaceShow_replaceShow id u u' wl :
  Show.id u = id ->
  replaceShow id u' (replaceShow id u wl) = replaceShow id u' wl.
Proof.
  intros Hid. unfold replaceShow. rewrite map_map. apply map_ext.
  intros w. destruct (String.eqb_spec (Show.id w) id) as [Heq|Hne].
  - rewrite Hid. now rewrite String.eqb_refl.
  - destruct (String.eqb_spec (Show.id w) id); [contradiction|reflexivity].
Qed.

(** X10 -- What [toggleEpisodeWatched] does to the tracked show
    [current] with the identifier.  When no episode of it has the
    episode identifier, its episodes stay as they are.  When one
    episode, and no other, has it, the watched count moves by exactly
    one, up if that episode was unwatched and down if it was watched.
    Toggling the same episode a second time gives every episode the
    watched flag it had at first, and the count of the first list. *)
Theorem episode_toggle_outcome (now now' : Z) (wl : Watchlist)
  (showId : string) (episodeId : Z) (current : Show.t) :
  findShow showId wl = Some current ->
  (forall show,
      In show (toggleEpisodeWatched now wl showId episodeId) ->
      Show.id show = showId ->
      ((forall ep, In ep (Show.episodes current) ->
                   Episode.id ep <> episodeId) ->
       Show.episodes show = Show.episodes current) /\
      (forall target,
          NoDup (map Episode.id (Show.episodes current)) ->
          In target (Show.episodes current) ->
          Episode.id target = episodeId ->
          Show.watchedEpisodesCount show =
          count_watched (Show.episodes current)
          + (if Episode.watched target then -1 else 1))) /\
  (forall show,
      In show
        (toggleEpisodeWatched now'
           (toggleEpisodeWatched now wl showId episodeId) showId episodeId) ->
      Show.id show = showId ->
      map Episode.watched (Show.episodes show) =
      map Episode.watched (Show.episodes current) /\
      Show.watchedEpisodesCount show =
      count_watched (Show.episodes current)).
Proof.
  intros Hfind. destruct (findShow_some _ _ _ Hfind) as [Hin Hid].
  split.
  - intros show Hshow Hsid. unfold toggleEpisodeWatched in Hshow.
    rewrite Hfind in Hshow.
    apply replaceShow_in in Hshow; [|assumption|exact Hid].
    subst show. simpl. split.
    + apply toggle_episodes_absent.
    + intros target Hnd Htarget Htid. now apply count_watched_toggle.
  - intros show Hshow Hsid.
    unfold toggleEpisodeWatched in Hshow at 2. rewrite Hfind in Hshow.
    unfold toggleEpisodeWatched in Hshow.
    rewrite (findShow_replaceShow _ _ _ _ Hfind) in Hshow by exact Hid.
    rewrite replaceShow_replaceShow in Hshow by exact Hid.
    apply replaceShow_in in Hshow; [|assumption|exact Hid].
    subst show. simpl.
    pose proof (toggle_episodes_twice_flags now now' episodeId
                  (Show.episodes current)) as Hflags.
    split; [exact Hflags|]. now apply count_watched_flags.
Qed.

End ToggleFacts.

Lemma episode_toggle_outcome_witness :
  Show.watchedEpisodesCount
    (hd Sample.two_seasons
       (toggleEpisodeWatched Sample.march_2024 [Sample.two_seasons]
          "tvmaze-7" 71)) = 2 /\
  map Episode.watched
    (Show.episodes
       (hd Sample.two_seasons
          (toggleEpisodeWatched Sample.march_2024
             (toggleEpisodeWatched Sample.march_2024 [Sample.two_seasons]
                "tvmaze-7" 71)
             "tvmaze-7" 71))) =
  [false; false; true].
Proof.
  assert (Hfind : findShow "tvmaze-7" [Sample.two_seasons] =
                  Some Sample.two_seasons) by reflexivity.
  destruct (episode_toggle_outcome Sample.march_2024 Sample.march_2024
              [Sample.two_seasons] "tvmaze-7" 71 Sample.two_seasons Hfind)
    as [Honce Htwice].
  split.
  - apply (proj2 (Honce _ ltac:(vm_compute; left; reflexivity) eq_refl)
             (Sample.episode 71 1 1 "2024-01-01" false)).
    + simpl. repeat constructor; simpl; intuition discriminate.
    + simpl. left. reflexivity.
    + reflexivity.
  - apply (Htwice _ ltac:(vm_compute; left; reflexivity) eq_refl).
Defined.

(** ** Totals over the seasons *)

Section SeasonTotals.

Lemma Zsum_perm (l l' : list Z) : Permutation l l' -> Zsum l = Zsum l'.
Proof.
  unfold Zsum. induction 1; simpl; lia.
Qed.

Variable measure : list Episode.t -> Z.
Hypothesis measure_nil : measure [] = 0.
Hypothesis measure_app :
  forall l l', measure (l ++ l') = measure l + measure l'.

Lemma sum_buckets_set_present m k bucket v :
  Js.Map.get m k = Some bucket ->
  sum_buckets measure (Js.Map.set m k v) =
  sum_buckets measure m - measure bucket + measure v.
Proof.
  unfold sum_buckets, Zsum.
  induction m as [|[k' v'] m IH]; simpl; [discriminate|].
  destruct (Z.eqb_spec k' k) as [->|Hne]; simpl.
  - intros [= ->]. lia.
  - intros H. rewrite (IH H). lia.
Qed.

Lemma sum_buckets_set_absent m k v :
  Js.Map.get m k = None ->
  sum_buckets measure (Js.Map.set m k v) = sum_buckets measure m + measure v.
Proof.
  unfold sum_buckets, Zsum.
  induction m as [|[k' v'] m IH]; simpl; [lia|].
  destruct (Z.eqb_spec k' k) as [->|Hne]; simpl; [discriminate|].
  intros H. rewrite (IH H). lia.
Qed.

Lemma sum_buckets_add m episode :
  sum_buckets measure (seasonMap_add m episode) =
  sum_buckets measure m + measure [episode].
Proof.
  unfold seasonMap_add, Js.Map.has.
  destruct (Js.Map.get m (Episode.season episode)) as [bucket|] eqn:Hget;
    simpl.
  - rewrite Hget. rewrite (sum_buckets_set_present _ _ bucket) by assumption.
    rewrite measure_app. lia.
  - rewrite get_set_same.
    rewrite (sum_buckets_set_present _ _ []) by apply get_set_same.
    rewrite sum_buckets_set_absent by assumption.
    simpl. rewrite measure_nil. lia.
Qed.

Lemma sum_buckets_fold episodes m :
  sum_buckets measure (fold_left seasonMap_add episodes m) =
  sum_buckets measure m + measure episodes.
Proof.
  revert m. induction episodes as [|ep l IH]; intros m; simpl.
  - rewrite measure_nil. lia.
  - rewrite IH, sum_buckets_add.
    change (ep :: l) with ([ep] ++ l). rewrite measure_app. lia.
Qed.

(** The measure of the input is the sum of the measures of the buckets
    of the sorted entries. *)
Lemma sum_buckets_sorted episodes :
  sum_buckets measure
    (Js.sort (fun a b => fst a - fst b)
       (fold_left seasonMap_add episodes [])) =
  measure episodes.
Proof.
  unfold sum_buckets.
  rewrite (Zsum_perm _ _ (Permutation_map _ (sort_perm _ _))).
  fold (sum_buckets measure (fold_left seasonMap_add episodes [])).
  rewrite sum_buckets_fold. reflexivity.
Qed.

End SeasonTotals.

Lemma count_watched_app l l' :
  count_watched (l ++ l') = count_watched l + count_watched l'.
Proof.
  unfold count_watched. rewrite filter_app, length_app. lia.
Qed.

Lemma length_Z_app (l l' : list Episode.t) :
  Z.of_nat (List.length (l ++ l')) =
  Z.of_nat (List.length l) + Z.of_nat (List.length l').
Proof. rewrite length_app. lia. Qed.

Lemma season_totals_add_up_aux (episodes : list Episode.t) :
  sum_seasons Season.totalEpisodes (organizeEpisodesIntoSeasons episodes) =
  Z.of_nat (List.length episodes) /\
  sum_seasons Season.watchedEpisodes (organizeEpisodesIntoSeasons episodes) =
  count_watched episodes.
Proof.
  unfold sum_seasons, organizeEpisodesIntoSeasons, Js.Map.entries.
  split.
  - rewrite map_map.
    rewrite (map_ext _ (fun entry => Z.of_nat (List.length (snd entry))))
      by (intros [k bucket]; reflexivity).
    apply (sum_buckets_sorted (fun l => Z.of_nat (List.length l)));
      [reflexivity|apply length_Z_app].
  - rewrite map_map.
    rewrite (map_ext _ (fun entry => count_watched (snd entry)))
      by (intros [k bucket]; reflexivity).
    apply (sum_buckets_sorted count_watched);
      [reflexivity|apply count_watched_app].
Qed.

(** X11 -- Totals of the aggregation: for every episode list, the
    [totalEpisodes] of the seasons of [organizeEpisodesIntoSeasons] add
    up to the number of episodes and their [watchedEpisodes] to the
    number of watched episodes; no season is empty, and in each season
    the watched count is between zero and the total. *)
Theorem season_totals_add_up (episodes : list Episode.t) :
  sum_seasons Season.totalEpisodes (organizeEpisodesIntoSeasons episodes) =
  Z.of_nat (List.length episodes) /\
  sum_seasons Season.watchedEpisodes (organizeEpisodesIntoSeasons episodes) =
  count_watched episodes /\
  (forall s,
      In s (organizeEpisodesIntoSeasons episodes) ->
      0 <= Season.watchedEpisodes s <= Season.totalEpisodes s /\
      0 < Season.totalEpisodes s).
Proof.
  destruct (season_totals_add_up_aux episodes) as [Htotal Hwatched].
  split; [exact Htotal|split; [exact Hwatched|]].
  unfold organizeEpisodesIntoSeasons, Js.Map.entries.
  intros s Hs. apply in_map_iff in Hs.
  destruct Hs as [[k bucket] [<- Hin]].
  apply (Permutation_in _ (sort_perm _ _)) in Hin.
  apply (groups_entry _ episodes k bucket (seasonMap_groups episodes))
    in Hin.
  destruct Hin as [_ Hne]. simpl.
  pose proof (count_watched_le bucket).
  destruct bucket; [contradiction|]. simpl in *. lia.
Qed.

(** ** Invariants of the reachable states, in general *)

Section ReachableInvariant.
Context `{D : JsDate}.

Variable P : Show.t -> Prop.
Hypothesis P_newItem : forall now item, P (newItem now item).
Hypothesis P_refreshShow : forall now fresh show, P (refreshShow now fresh show).
Hypothesis P_withEpisodes :
  forall now current updatedEpisodes watchedDate,
    P current ->
    List.length updatedEpisodes = List.length (Show.episodes current) ->
    P (withEpisodes now current updatedEpisodes watchedDate).
Hypothesis P_toggleExpanded :
  forall n show, P show -> P (toggleExpanded n show).

Lemma refreshOrKeep_keeps now source show :
  P show -> P (refreshOrKeep now source show).
Proof.
  intros Hshow. unfold refreshOrKeep, updateShowWithEpisodes.
  destruct (fetchEpisodeList _); simpl; [apply P_refreshShow|assumption].
Qed.

Lemma daily_batches_keep fuel now source showsToUpdate i wl :
  Forall P showsToUpdate -> Forall P wl ->
  Forall P (daily_batches fuel now source showsToUpdate i wl).
Proof.
  intros Hshows. revert i wl.
  induction fuel as [|fuel IH]; intros i wl Hwl; cbn [daily_batches];
    [assumption|].
  destruct (i <? List.length showsToUpdate)%nat; [|assumption].
  apply IH. apply Forall_applyUpdates; [|assumption].
  apply Forall_map. apply Forall_impl with (P := P).
  - intros show. apply refreshOrKeep_keeps.
  - now apply Forall_firstn_skipn.
Qed.

Lemma loaded_keeps now now' source wl item :
  Forall P wl -> Forall P (addToWatchlist_loaded now now' source wl item).
Proof.
  intros Hwl. unfold addToWatchlist_loaded, updateShowWithEpisodes.
  destruct (fetchEpisodeList _); simpl; [|assumption].
  apply Forall_replaceShow; [assumption|apply P_refreshShow].
Qed.

Lemma found_keeps id wl show :
  Forall P wl -> findShow id wl = Some show -> P show.
Proof.
  intros Hwl Hfind. apply findShow_some in Hfind.
  rewrite Forall_forall in Hwl. now apply Hwl.
Qed.

Lemma markSeriesWatched_keeps now wl showId watched :
  Forall P wl -> Forall P (markSeriesWatched now wl showId watched).
Proof.
  intros Hwl. unfold markSeriesWatched.
  destruct (findShow showId wl) as [current|] eqn:Hfind; [|assumption].
  apply Forall_replaceShow; [assumption|].
  apply P_withEpisodes; [eapply found_keeps; eassumption|apply length_map].
Qed.

Lemma step_keeps wl wl' : step wl wl' -> Forall P wl -> Forall P wl'.
Proof.
  intros Hstep Hwl. destruct Hstep.
  - unfold addToWatchlist. destruct (findShow _ wl); [assumption|].
    apply loaded_keeps. apply Forall_snoc; [assumption|apply P_newItem].
  - unfold addToWatchlist_pending. destruct (findShow _ wl); [assumption|].
    apply Forall_snoc; [assumption|apply P_newItem].
  - now apply loaded_keeps.
  - now apply Forall_filter.
  - now apply markSeriesWatched_keeps.
  - now apply markSeriesWatched_keeps.
  - unfold toggleEpisodeWatched.
    destruct (findShow showId wl) as [current|] eqn:Hfind; [|assumption].
    apply Forall_replaceShow; [assumption|].
    apply P_withEpisodes; [eapply found_keeps; eassumption|apply length_map].
  - unfold markSeasonWatched.
    destruct (findShow showId wl) as [current|] eqn:Hfind; [|assumption].
    apply Forall_replaceShow; [assumption|].
    apply P_withEpisodes; [eapply found_keeps; eassumption|apply length_map].
  - unfold toggleSeasonExpansion. apply Forall_map.
    apply Forall_impl with (2 := Hwl). intros show Hshow.
    destruct (Show.id show =? showId)%string;
      [now apply P_toggleExpanded|assumption].
  - unfold updateShowsDaily.
    destruct (List.length wl =? 0)%nat; [assumption|].
    destruct (List.length (filter _ wl) =? 0)%nat; [assumption|].
    apply daily_batches_keep; [now apply Forall_filter|assumption].
Qed.

Lemma reachable_keeps wl : reachable wl -> Forall P wl.
Proof.
  induction 1 as [|wl wl' _ IH Hstep]; [constructor|].
  now apply (step_keeps wl).
Qed.

End ReachableInvariant.

Section SeasonsInvariant.
Context `{D : JsDate}.

(** X12 -- The seasons never drift from the episodes: in every state of
    the watchlist that the operations lead to, the [seasons] of every
    show are the aggregation of its [episodes]; hence [totalEpisodes]
    and [watchedEpisodesCount] are the sums of the totals and of the
    watched counts of its seasons. *)
Theorem seasons_follow_episodes (wl : Watchlist) (show : Show.t) :
  reachable wl -> In show wl ->
  Show.seasons show = organizeEpisodesIntoSeasons (Show.episodes show) /\
  Show.totalEpisodes show =
  sum_seasons Season.totalEpisodes (Show.seasons show) /\
  Show.watchedEpisodesCount show =
  sum_seasons Season.watchedEpisodes (Show.seasons show).
Proof.
  intros Hreach Hin.
  assert (Hinv : Forall (fun s => aggregates_agree s /\ seasons_agree s) wl).
  { apply reachable_keeps; try assumption.
    - intros now item. split; [apply newItem_agrees|reflexivity].
    - intros now fresh s. split; [apply refreshShow_agrees|reflexivity].
    - intros now current eps wd [Hagg _] Hlen.
      split; [now apply withEpisodes_agrees|reflexivity].
    - intros n s [Hagg Hseasons]. split; assumption. }
  rewrite Forall_forall in Hinv.
  destruct (Hinv show Hin) as [[Htotal [Hcount _]] Hseasons].
  unfold seasons_agree in Hseasons.
  destruct (season_totals_add_up_aux (Show.episodes show)) as [Hsum1 Hsum2].
  split; [exact Hseasons|]. rewrite Hseasons, Hsum1, Hsum2. now split.
Qed.

End SeasonsInvariant.

(** ** The daily refresh, show by show *)

Section DailyRefresh.
Context `{D : JsDate}.
















End DailyRefresh.



(** ** The backend job on the database *)

Section BackendFacts.

Lemma key_present_in (table : list Backend.EpisodeRow) (key : Z) :
  existsb (fun r' => Backend.id (Backend.row_data r') =? key) table = true <->
  In key (episode_keys table).
Proof.
  unfold episode_keys. rewrite existsb_exists, in_map_iff. split.
  - intros [r [Hin Heq]]. apply Z.eqb_eq in Heq. now exists r.
  - intros [r [Heq Hin]]. exists r. split; [assumption|].
    now apply Z.eqb_eq.
Qed.

Lemma episode_insert_extends table r :
  exists added,
    Backend.episode_insert table r = table ++ added /\
    (forall r', In r' added -> r' = r).
Proof.
  unfold Backend.episode_insert. destruct (existsb _ table).
  - exists []. split; [now rewrite app_nil_r|intros r' []].
  - exists [r]. split; [reflexivity|]. intros r' [<-|[]]. reflexivity.
Qed.

Lemma fold_insert_extends rows table :
  exists added,
    fold_left Backend.episode_insert rows table = table ++ added /\
    (forall r, In r added -> In r rows).
Proof.
  revert table. induction rows as [|r rows IH]; intros table; simpl.
  - exists []. split; [now rewrite app_nil_r|intros r []].
  - destruct (episode_insert_extends table r) as [a1 [H1 Hin1]].
    destruct (IH (Backend.episode_insert table r)) as [a2 [H2 Hin2]].
    exists (a1 ++ a2). split.
    + rewrite H2, H1. now rewrite app_assoc.
    + intros r' Hr'. apply in_app_or in Hr'. destruct Hr' as [Hr'|Hr'].
      * left. symmetry. now apply Hin1.
      * right. now apply Hin2.
Qed.

Lemma episode_insert_nodup table r :
  NoDup (episode_keys table) ->
  NoDup (episode_keys (Backend.episode_insert table r)).
Proof.
  intros Hnd. unfold Backend.episode_insert.
  destruct (existsb _ table) eqn:Hex; [assumption|].
  unfold episode_keys. rewrite map_app. simpl.
  apply NoDup_app; [assumption|repeat constructor; intros []|].
  intros k Hk [<-|[]]. apply key_present_in in Hk. congruence.
Qed.

Lemma fold_insert_nodup rows table :
  NoDup (episode_keys table) ->
  NoDup (episode_keys (fold_left Backend.episode_insert rows table)).
Proof.
  revert table. induction rows as [|r rows IH]; intros table Hnd; simpl;
    [assumption|].
  apply IH. now apply episode_insert_nodup.
Qed.

Lemma episode_insert_keeps table r key :
  In key (episode_keys table) ->
  In key (episode_keys (Backend.episode_insert table r)).
Proof.
  intros Hin. destruct (episode_insert_extends table r) as [added [-> _]].
  unfold episode_keys. rewrite map_app. apply in_or_app. now left.
Qed.

Lemma fold_insert_keeps rows table key :
  In key (episode_keys table) ->
  In key (episode_keys (fold_left Backend.episode_insert rows table)).
Proof.
  revert table. induction rows as [|r rows IH]; intros table Hin; simpl;
    [assumption|].
  apply IH. now apply episode_insert_keeps.
Qed.

(** After [createMany] the key of every given row is in the table. *)
Lemma fold_insert_present rows table r :
  In r rows ->
  In (Backend.id (Backend.row_data r))
    (episode_keys (fold_left Backend.episode_insert rows table)).
Proof.
  revert table. induction rows as [|r' rows IH]; intros table Hin;
    [destruct Hin|].
  simpl. destruct Hin as [->|Hin]; [|now apply IH].
  apply fold_insert_keeps. unfold Backend.episode_insert.
  destruct (existsb _ table) eqn:Hex.
  - now apply key_present_in.
  - unfold episode_keys. rewrite map_app. apply in_or_app. right. now left.
Qed.

(** Rows whose keys are all in the table add nothing. *)
Lemma fold_insert_all_present rows table :
  (forall r, In r rows ->
             In (Backend.id (Backend.row_data r)) (episode_keys table)) ->
  fold_left Backend.episode_insert rows table = table.
Proof.
  induction rows as [|r rows IH]; intros H; simpl; [reflexivity|].
  assert (Hr : Backend.episode_insert table r = table).
  { unfold Backend.episode_insert.
    assert (existsb (fun r' => Backend.id (Backend.row_data r')
                               =? Backend.id (Backend.row_data r)) table
            = true) as ->; [|reflexivity].
    apply key_present_in. apply H. now left. }
  rewrite Hr. apply IH. intros r' Hr'. apply H. now right.
Qed.

Lemma tryM_rethrow {A : Type} (m : Backend.DbM A) (db : Backend.Db) :
  Backend.tryM m (fun error => Backend.throw error) db = m db.
Proof.
  unfold Backend.tryM, Backend.throw. now destruct (m db) as [[a|e] db'].
Qed.

Lemma db_eta (db : Backend.Db) :
  {| Backend.shows := Backend.shows db;
     Backend.episodes := Backend.episodes db |} = db.
Proof. now destruct db. Qed.

(** [updateSingleShow], step by step: nothing on an empty answer;
    otherwise the new rows are inserted, then the show row is updated. *)
Lemma updateSingleShow_run now source showId tvmazeId title db :
  exists latest,
    Backend.fetchEpisodesFromTvmaze (source tvmazeId) = Return latest /\
    Backend.updateSingleShow now source showId tvmazeId title db =
    if (List.length latest =? 0)%nat then (Return tt, db)
    else
      Backend.show_update showId (Z.of_nat (List.length latest)) now
        {| Backend.shows := Backend.shows db;
           Backend.episodes :=
             fold_left Backend.episode_insert
               (newRows showId latest (Backend.episodes db))
               (Backend.episodes db) |}.
Proof.
  destruct (fetchEpisodesFromTvmaze_returns (source tvmazeId))
    as [latest Hfetch].
  exists latest. split; [exact Hfetch|].
  unfold Backend.updateSingleShow. rewrite tryM_rethrow.
  unfold Backend.bindM at 1. unfold Backend.lift. rewrite Hfetch.
  destruct (List.length latest =? 0)%nat; [reflexivity|].
  unfold Backend.bindM at 1. unfold Backend.episode_findMany_ids.
  unfold Backend.bindM at 1.
  fold (newRows showId latest (Backend.episodes db)).
  destruct (0 <? List.length _)%nat eqn:Hnew.
  - unfold Backend.episode_createMany.
    fold (newRows showId latest (Backend.episodes db)). reflexivity.
  - unfold Backend.ret.
    apply Nat.ltb_ge in Hnew.
    assert (Hnil : newRows showId latest (Backend.episodes db) = []).
    { unfold newRows.
      destruct (filter _ latest); [reflexivity|simpl in Hnew; lia]. }
    rewrite Hnil. simpl. now rewrite db_eta.
Qed.

Lemma show_update_ids showId total now db :
  map Backend.show_id (Backend.shows (snd (Backend.show_update showId total now db))) =
  map Backend.show_id (Backend.shows db) /\
  Backend.episodes (snd (Backend.show_update showId total now db)) =
  Backend.episodes db.
Proof.
  unfold Backend.show_update.
  destruct (existsb _ (Backend.shows db)); simpl; [|now split].
  split; [|reflexivity]. rewrite map_map. apply map_ext. intros s.
  now destruct (Backend.show_id s =? showId)%string.
Qed.

Lemma show_update_others showId total now db i row :
  nth_error (Backend.shows db) i = Some row ->
  Backend.show_id row <> showId ->
  nth_error
    (Backend.shows (snd (Backend.show_update showId total now db))) i =
  Some row.
Proof.
  intros Hnth Hne. unfold Backend.show_update.
  destruct (existsb _ (Backend.shows db)); simpl; [|assumption].
  rewrite nth_error_map, Hnth. simpl.
  apply String.eqb_neq in Hne. now rewrite Hne.
Qed.

Lemma in_newRows showId latest table r :
  In r (newRows showId latest table) ->
  Backend.row_showId r = showId /\ In (Backend.row_data r) latest.
Proof.
  unfold newRows. intros Hin. apply in_map_iff in Hin.
  destruct Hin as [ep [<- Hep]]. apply filter_In in Hep.
  split; [reflexivity|apply Hep].
Qed.

(** X15 -- [updateSingleShow] only adds: whatever the catalogue answers
    and whether or not the update ends in an error, every episode row is
    kept as and where it was, the rows added belong to the show and come
    from the fetched list, the keys of the episode table stay distinct,
    and a show row with another key is untouched; on an empty answer the
    database is left as it is. *)
Theorem update_single_show_only_adds (now : Z) (source : Source)
  (showId : string) (tvmazeId : Z) (title : string) (db : Backend.Db) :
  exists latest added,
    Backend.fetchEpisodesFromTvmaze (source tvmazeId) = Return latest /\
    Backend.episodes
      (snd (Backend.updateSingleShow now source showId tvmazeId title db)) =
    Backend.episodes db ++ added /\
    (forall r, In r added ->
               Backend.row_showId r = showId /\
               In (Backend.row_data r) latest) /\
    (latest = [] ->
     Backend.updateSingleShow now source showId tvmazeId title db =
     (Return tt, db)) /\
    (NoDup (episode_keys (Backend.episodes db)) ->
     NoDup
       (episode_keys
          (Backend.episodes
             (snd (Backend.updateSingleShow now source showId tvmazeId title
                     db))))) /\
    (forall i row,
        nth_error (Backend.shows db) i = Some row ->
        Backend.show_id row <> showId ->
        nth_error
          (Backend.shows
             (snd (Backend.updateSingleShow now source showId tvmazeId title
                     db))) i = Some row).
Proof.
  destruct (updateSingleShow_run now source showId tvmazeId title db)
    as [latest [Hfetch Hrun]].
  rewrite Hrun. clear Hrun.
  destruct (List.length latest =? 0)%nat eqn:Hlen.
  - exists latest, []. simpl.
    split; [exact Hfetch|]. split; [now rewrite app_nil_r|].
    split; [intros r []|]. split; [reflexivity|]. split; auto.
  - set (rows := newRows showId latest (Backend.episodes db)).
    destruct (fold_insert_extends rows (Backend.episodes db))
      as [added [Hadded Hin]].
    exists latest, added.
    split; [exact Hfetch|]. split; [|split; [|split; [|split]]].
    + rewrite (proj2 (show_update_ids _ _ _ _)). exact Hadded.
    + intros r Hr. apply (in_newRows showId latest (Backend.episodes db)).
      now apply Hin.
    + intros ->. discriminate Hlen.
    + intros Hnd. rewrite (proj2 (show_update_ids _ _ _ _)). simpl.
      now apply fold_insert_nodup.
    + intros i row Hnth Hne. now apply show_update_others.
Qed.

Lemma show_update_twice showId total now db :
  Backend.show_update showId total now
    (snd (Backend.show_update showId total now db)) =
  Backend.show_update showId total now db.
Proof.
  unfold Backend.show_update.
  destruct (existsb _ (Backend.shows db)) eqn:Hex; simpl.
  - assert (Hex' : existsb (fun s => (Backend.show_id s =? showId)%string)
                     (map (fun s =>
                             if (Backend.show_id s =? showId)%string
                             then {| Backend.show_id := Backend.show_id s;
                                     Backend.show_tvmazeId :=
                                       Backend.show_tvmazeId s;
                                     Backend.show_title := Backend.show_title s;
                                     Backend.show_totalEpisodes := total;
                                     Backend.show_lastApiUpdate := now |}
                             else s) (Backend.shows db)) = true).
    { apply existsb_exists in Hex. destruct Hex as [s [Hin Heq]].
      apply existsb_exists. eexists. split.
      - apply in_map. exact Hin.
      - rewrite Heq. simpl. exact Heq. }
    rewrite Hex'. f_equal. f_equal. rewrite map_map. apply map_ext.
    intros s. destruct (Backend.show_id s =? showId)%string eqn:Heq; simpl.
    + now rewrite Heq.
    + now rewrite Heq.
  - now rewrite Hex.
Qed.

Lemma newRows_present showId latest table table' r :
  (forall key, In key (episode_keys table) -> In key (episode_keys table')) ->
  (forall r', In r' (newRows showId latest table) ->
              In (Backend.id (Backend.row_data r')) (episode_keys table')) ->
  In r (newRows showId latest table') ->
  In (Backend.id (Backend.row_data r)) (episode_keys table').
Proof.
  intros Hkeeps Hnew Hin.
  destruct (in_newRows _ _ _ _ Hin) as [Hshow Hdata].
  destruct (in_dec Z.eq_dec (Backend.id (Backend.row_data r))
              (episode_keys table')) as [Hyes|Hno]; [assumption|].
  exfalso. apply Hno. apply Hnew.
  unfold newRows. apply in_map_iff. exists (Backend.row_data r). split.
  - destruct r as [sid data]. simpl in *. now subst.
  - apply filter_In. split; [assumption|].
    apply negb_true_iff.
    destruct (existsb _ _) eqn:Hex; [|reflexivity].
    exfalso. apply Hno. apply Hkeeps.
    apply existsb_exists in Hex. destruct Hex as [k [Hk Heq]].
    apply Z.eqb_eq in Heq. rewrite Heq.
    apply in_map_iff in Hk. destruct Hk as [r0 [<- Hr0]].
    apply filter_In in Hr0. unfold episode_keys. apply in_map_iff.
    exists r0. split; [reflexivity|apply Hr0].
Qed.

(** X16 -- Running [updateSingleShow] again changes nothing more: a
    second run with the same catalogue answer and clock reading ends as
    the first did and leaves the database as the first left it (no
    episode row is inserted twice). *)
Theorem update_single_show_twice (now : Z) (source : Source)
  (showId : string) (tvmazeId : Z) (title : string) (db : Backend.Db) :
  Backend.updateSingleShow now source showId tvmazeId title
    (snd (Backend.updateSingleShow now source showId tvmazeId title db)) =
  Backend.updateSingleShow now source showId tvmazeId title db.
Proof.
  destruct (updateSingleShow_run now source showId tvmazeId title db)
    as [latest [Hfetch Hrun]].
  destruct (updateSingleShow_run now source showId tvmazeId title
              (snd (Backend.updateSingleShow now source showId tvmazeId
                      title db)))
    as [latest' [Hfetch' Hrun']].
  rewrite Hfetch in Hfetch'. injection Hfetch' as <-.
  rewrite Hrun'. clear Hrun'. rewrite Hrun. clear Hrun.
  destruct (List.length latest =? 0)%nat; [reflexivity|].
  set (table := Backend.episodes db).
  set (table1 := fold_left Backend.episode_insert
                   (newRows showId latest table) table).
  set (db1 := {| Backend.shows := Backend.shows db;
                 Backend.episodes := table1 |}).
  set (total := Z.of_nat (List.length latest)).
  assert (Hep : Backend.episodes
                  (snd (Backend.show_update showId total now db1)) = table1)
    by apply show_update_ids.
  rewrite Hep.
  assert (Hsame : fold_left Backend.episode_insert
                    (newRows showId latest table1) table1 = table1).
  { apply fold_insert_all_present. intros r Hr.
    apply (newRows_present showId latest table table1 r); [| |exact Hr].
    - intros key Hkey. now apply fold_insert_keeps.
    - intros r' Hr'. now apply fold_insert_present. }
  rewrite Hsame.
  rewrite <- Hep at 1. rewrite db_eta.
  apply show_update_twice.
Qed.









End BackendFacts.

(** ** Summaries without tags *)

Section StripTags.

Lemma has_gt_cons c s :
  Js.has_gt (String c s) = (Ascii.eqb c ">" || Js.has_gt s).
Proof. simpl. now destruct (Ascii.eqb c ">"). Qed.

(** Stripping brings in no [>]. *)
Lemma has_gt_strip inside s :
  Js.has_gt (Js.strip_tags_aux inside s) = true -> Js.has_gt s = true.
Proof.
  revert inside. induction s as [|c s IH]; intros inside; [now destruct inside|].
  rewrite has_gt_cons. cbn [Js.strip_tags_aux].
  destruct inside.
  - destruct (Ascii.eqb c ">"); [reflexivity|]. apply IH.
  - destruct (Ascii.eqb c "<" && Js.has_gt s) eqn:Htag.
    + intros H. apply IH in H. rewrite H. apply orb_true_r.
    + rewrite has_gt_cons. destruct (Ascii.eqb c ">"); [reflexivity|].
      apply IH.
Qed.

Lemma strip_tags_aux_no_tag inside s :
  has_tag (Js.strip_tags_aux inside s) = false.
Proof.
  revert inside. induction s as [|c s IH]; intros inside; [now destruct inside|].
  cbn [Js.strip_tags_aux]. destruct inside.
  - destruct (Ascii.eqb c ">"); apply IH.
  - destruct (Ascii.eqb c "<" && Js.has_gt s) eqn:Htag; [apply IH|].
    cbn [has_tag]. rewrite IH, orb_false_r.
    destruct (Ascii.eqb c "<"); [|reflexivity]. simpl in Htag. simpl.
    destruct (Js.has_gt (Js.strip_tags_aux false s)) eqn:Hgt; [|reflexivity].
    apply has_gt_strip in Hgt. congruence.
Qed.

Lemma no_tag_fixed s : has_tag s = false -> Js.strip_tags s = s.
Proof.
  unfold Js.strip_tags. induction s as [|c s IH]; [reflexivity|].
  cbn [has_tag Js.strip_tags_aux]. intros H.
  apply orb_false_iff in H. destruct H as [Htag Hrest].
  rewrite Htag. now rewrite IH.
Qed.

Lemma strip_tags_aux_length inside s :
  (String.length (Js.strip_tags_aux inside s) <= String.length s)%nat.
Proof.
  revert inside. induction s as [|c s IH]; intros inside; [now destruct inside|].
  cbn [Js.strip_tags_aux String.length]. destruct inside.
  - destruct (Ascii.eqb c ">"); apply Nat.le_le_succ_r; apply IH.
  - destruct (Ascii.eqb c "<" && Js.has_gt s).
    + apply Nat.le_le_succ_r. apply IH.
    + cbn [String.length]. apply le_n_S. apply IH.
Qed.

(** X18 -- The removal of HTML tags ([replace(/<[^>]*>/g, '')]) and the
    summaries: the text that is left holds no tag (no [<] with a [>]
    after it) and is no longer than the input; a text without a tag is
    left as it is, so removing a second time changes nothing; hence the
    summary of every episode that either fetch answers is free of
    tags. *)
Theorem summaries_without_tags (s : string) :
  has_tag (Js.strip_tags s) = false /\
  (String.length (Js.strip_tags s) <= String.length s)%nat /\
  (has_tag s = false -> Js.strip_tags s = s) /\
  Js.strip_tags (Js.strip_tags s) = Js.strip_tags s /\
  (forall o fresh ep,
      fetchEpisodeList o = Return fresh -> In ep fresh ->
      exists text, Episode.summary ep = Some text /\ has_tag text = false) /\
  (forall o latest ep text,
      Backend.fetchEpisodesFromTvmaze o = Return latest -> In ep latest ->
      Backend.summary ep = Some text -> has_tag text = false).
Proof.
  assert (Hclean : forall t, has_tag (Js.strip_tags t) = false)
    by (intros t; apply strip_tags_aux_no_tag).
  split; [apply Hclean|]. split; [apply strip_tags_aux_length|].
  split; [apply no_tag_fixed|]. split; [apply no_tag_fixed, Hclean|].
  split.
  - intros o fresh ep Hfetch Hin.
    destruct o as [|status [| |eps]]; simpl in Hfetch;
      injection Hfetch as <-; try destruct Hin.
    apply in_map_iff in Hin. destruct Hin as [raw [<- _]].
    unfold episode_of_raw. simpl.
    destruct (Js.or_undefined (raw_summary raw)) as [text|].
    + exists (Js.strip_tags text). split; [reflexivity|apply Hclean].
    + exists EmptyString. split; reflexivity.
  - intros o latest ep text Hfetch Hin Hsum.
    assert (Hraw : exists raw, ep = Backend.episode_of_raw raw).
    { destruct o as [|status [| |eps]];
        unfold Backend.fetchEpisodesFromTvmaze in Hfetch; simpl in Hfetch;
        try (injection Hfetch as <-; destruct Hin);
        destruct (response_ok status); simpl in Hfetch;
        injection Hfetch as <-; try destruct Hin.
      apply in_map_iff in Hin. destruct Hin as [raw [<- _]]. now exists raw. }
    destruct Hraw as [raw ->]. unfold Backend.episode_of_raw in Hsum.
    simpl in Hsum.
    destruct (Js.or_undefined (raw_summary raw)) as [t|]; [|discriminate].
    injection Hsum as <-. apply Hclean.
Qed.

End StripTags.

(** ** The two fetches compared, and the next episode of a search result *)

Lemma map_fields_agree (eps : list RawEpisode) :
  map (fun ep => (Episode.id ep, Episode.season ep, Episode.episode ep,
                  Episode.title ep, Episode.airDate ep))
    (map episode_of_raw eps) =
  map (fun ep => (Backend.id ep, Backend.season ep, Backend.episode ep,
                  Backend.title ep, Backend.airDate ep))
    (map Backend.episode_of_raw eps).
Proof. rewrite !map_map. apply map_ext. reflexivity. Qed.

(** X19 -- The two fetches on a response that carries an episode array:
    the frontend's [fetchEpisodeList] does not look at the status and
    answers the episodes, in the order of the array, whatever it is;
    the backend's [fetchEpisodesFromTvmaze] answers them only for a
    status from 200 to 299, and the empty list otherwise; when both
    answer, the episodes agree on identifier, season, number, title and
    air date. *)
Theorem fetches_on_an_episode_array (status : Z) (eps : list RawEpisode) :
  fetchEpisodeList (Response status (EpisodeArray eps)) =
  Return (map episode_of_raw eps) /\
  map Episode.id (map episode_of_raw eps) = map raw_id eps /\
  (response_ok status = false ->
   Backend.fetchEpisodesFromTvmaze (Response status (EpisodeArray eps)) =
   Return []) /\
  (response_ok status = true ->
   exists latest,
     Backend.fetchEpisodesFromTvmaze (Response status (EpisodeArray eps)) =
     Return latest /\
     map (fun ep => (Episode.id ep, Episode.season ep, Episode.episode ep,
                     Episode.title ep, Episode.airDate ep))
       (map episode_of_raw eps) =
     map (fun ep => (Backend.id ep, Backend.season ep, Backend.episode ep,
                     Backend.title ep, Backend.airDate ep))
       latest).
Proof.
  split; [reflexivity|]. split.
  - rewrite map_map. apply map_ext. reflexivity.
  - unfold Backend.fetchEpisodesFromTvmaze. simpl. split.
    + intros Hbad. now rewrite Hbad.
    + intros Hok. rewrite Hok. simpl. eexists. split; [reflexivity|].
      apply map_fields_agree.
Qed.

Lemma fetches_on_an_episode_array_witness :
  Backend.fetchEpisodesFromTvmaze
    (Response 404 (EpisodeArray [Sample.raw 11 1 1 "2024-01-01"])) =
  Return [] /\
  fetchEpisodeList
    (Response 404 (EpisodeArray [Sample.raw 11 1 1 "2024-01-01"])) =
  Return [episode_of_raw (Sample.raw 11 1 1 "2024-01-01")].
Proof.
  destruct (fetches_on_an_episode_array 404
              [Sample.raw 11 1 1 "2024-01-01"]) as [Hfront [_ [Hback _]]].
  split; [apply Hback; reflexivity|exact Hfront].
Defined.

(** X20 -- [fetchNextEpisodeInfo] on the search results: the results
    keep their number and order; a result changes in nothing but its
    [nextEpisode]; and a result whose request fails, or whose answer
    carries no next episode, is exactly as it was. *)
Theorem next_episode_info_frame (catalogue : Z -> ShowFetchOutcome)
  (shows : list Show.t) (i : nat) (show : Show.t) :
  nth_error shows i = Some show ->
  exists show',
    nth_error (fetchNextEpisodeInfo catalogue shows) i = Some show' /\
    with_nextEpisode show' (Show.nextEpisode show) = show /\
    (forall nextEp,
        (exists status,
            catalogue (Show.tvmazeId show) =
            ShowResponse status (ShowWithNext nextEp)) ->
        Show.nextEpisode show' = Some (nextEpisode_of_raw nextEp)) /\
    ((forall status nextEp,
         catalogue (Show.tvmazeId show) <>
         ShowResponse status (ShowWithNext nextEp)) ->
     show' = show).
Proof.
  intros Hnth. unfold fetchNextEpisodeInfo.
  rewrite nth_error_map, Hnth. simpl.
  eexists. split; [reflexivity|].
  destruct (catalogue (Show.tvmazeId show)) as [|status [| |nextEp]];
    simpl.
  - split; [now destruct show|]. split; [|reflexivity].
    intros nextEp [status H]. discriminate H.
  - split; [now destruct show|]. split; [|reflexivity].
    intros nextEp [status' H]. discriminate H.
  - split; [now destruct show|]. split; [|reflexivity].
    intros nextEp [status' H]. discriminate H.
  - split; [now destruct show|]. split.
    + intros nextEp' [status' [= _ <-]]. reflexivity.
    + intros H. exfalso. now apply (H status nextEp).
Qed.

Lemma next_episode_info_frame_witness :
  exists show',
    nth_error
      (fetchNextEpisodeInfo (fun _ => ShowNetworkError)
         [Sample.item 1 "tvmaze-1"]) 0 = Some show' /\
    show' = Sample.item 1 "tvmaze-1".
Proof.
  destruct (next_episode_info_frame (fun _ => ShowNetworkError)
              [Sample.item 1 "tvmaze-1"] 0 (Sample.item 1 "tvmaze-1")
              eq_refl) as [show' [Hnth [_ [_ Hsame]]]].
  exists show'. split; [exact Hnth|]. apply Hsame.
  intros status nextEp H. discriminate H.
Defined.

Lemma seasons_follow_episodes_witness :
  Show.seasons (hd (Sample.item 1 "tvmaze-1") Sample.session) =
  organizeEpisodesIntoSeasons
    (Show.episodes (hd (Sample.item 1 "tvmaze-1") Sample.session)) /\
  Show.totalEpisodes (hd (Sample.item 1 "tvmaze-1") Sample.session) =
  sum_seasons Season.totalEpisodes
    (Show.seasons (hd (Sample.item 1 "tvmaze-1") Sample.session)) /\
  Show.watchedEpisodesCount (hd (Sample.item 1 "tvmaze-1") Sample.session) =
  sum_seasons Season.watchedEpisodes
    (Show.seasons (hd (Sample.item 1 "tvmaze-1") Sample.session)).
Proof.
  apply (seasons_follow_episodes Sample.session).
  - unfold Sample.session.
    eapply reachable_step; [|apply step_toggleEpisode].
    eapply reachable_step; [|apply step_toggleEpisode].
    eapply reachable_step; [|apply step_add].
    apply reachable_init.
  - vm_compute. left. reflexivity.
Defined.
